(** * GitKeeper: settings store and backup orchestration

    A shallow embedding of [settings.py] (class [SettingsManager]),
    [github_backup.py] (class [GitHubBackup]) and the selective backup of
    [tui_app.py] (class [SelectiveBackupProgressScreen]), with the
    properties of the settings store and of the backup runs.

    Conventions.
    - A SQLite table with a [PRIMARY KEY] column is a finite map from the
      key to the remaining columns.
    - [CURRENT_TIMESTAMP] is an input of every operation that evaluates it.
    - Python values that reach [json.dumps] / [json.loads] are the values
      [pyval]: the JSON values and tuples; floating point numbers are left
      out.
    - [json] and [cryptography.fernet] are libraries outside the
      repository: the code is parametric in them ([Json], [Fernet]). Each
      call to [json] returns a value or raises an exception, and the code
      catches the exceptions its [except] clauses name, no others.
    - The remote API and the [git] subprocess are given by the outcome of
      each call: the value returned or the exception raised.
    - The file system is a map from paths to directories and JSON files;
      [mkdir] and [open] fail as [pathlib] and [open] do.
    - Console output, progress bars and status labels are presentation and
      are left out; the logger and the [RichLog] lines are kept. *)

From Stdlib Require Import Ascii String.
From stdpp Require Import gmap strings list fin_maps sorting pretty.

Open Scope string_scope.
Open Scope list_scope.
Local Set Warnings "-register-all".

(** ** Python values and exceptions *)

Inductive pyval : Type :=
  | PNone
  | PBool (b : bool)
  | PInt (n : Z)
  | PStr (s : string)
  | PList (l : list pyval)
  | PTuple (l : list pyval)
  | PDict (d : list (string * pyval)).


(** The exception classes the code names or can meet. All of them derive
    from [Exception]. *)
Inductive exn : Type :=
  | GitCommandError (msg stderr : string)
  | GithubException (msg : string)
  | OSError (cls msg : string)
  | AttributeError (msg : string)
  | InvalidToken
  | JSONDecodeError (msg : string)
  | OtherException (cls msg : string).

(** [str(e)] and [type(e).__name__] *)
Definition str_exn (e : exn) : string :=
  match e with
  | GitCommandError msg _ => msg
  | GithubException msg => msg
  | OSError _ msg => msg
  | AttributeError msg => msg
  | InvalidToken => ""
  | JSONDecodeError msg => msg
  | OtherException _ msg => msg
  end.

Definition type_name (e : exn) : string :=
  match e with
  | GitCommandError _ _ => "GitCommandError"
  | GithubException _ => "GithubException"
  | OSError cls _ => cls
  | AttributeError _ => "AttributeError"
  | InvalidToken => "InvalidToken"
  | JSONDecodeError _ => "JSONDecodeError"
  | OtherException cls _ => cls
  end.

(** The outcome of a call: a value or a raised exception. *)
Inductive result (A : Type) : Type :=
  | Ok (a : A)
  | Raise (e : exn).
Arguments Ok {A} a.
Arguments Raise {A} e.

(** ** The libraries the code calls *)

(** [json.dumps] and [json.loads], each with its outcome. [json.loads]
    raises [JSONDecodeError] on a text that is not JSON; both can raise
    other exceptions, as [RecursionError] on deep nesting and [ValueError]
    on an integer beyond the digit limit of the interpreter. *)
Class Json := {
  json_dumps : pyval → result string;
  json_loads : string → result pyval
}.

(** [Fernet(key).encrypt] and [.decrypt] for the key of the [.key] file.
    [encrypt] draws a time stamp and an initialisation vector: they are
    its first argument. [decrypt] raises [InvalidToken]. *)
Class Fernet := {
  fernet_encrypt : string → string → string;
  fernet_decrypt : string → result string
}.

(** ** settings.py *)

Module SettingsManager.

(** Table [settings]: [key TEXT PRIMARY KEY] maps to the other columns. *)
Record setting : Type := {
  value : string;
  encrypted : bool;
  description : option string;
  created_at : string;
  updated_at : string
}.

(** Table [profiles]: [name TEXT PRIMARY KEY] maps to the other columns. *)
Record profile : Type := {
  settings : string;
  active : bool;
  profile_created_at : string;
  profile_updated_at : string
}.

Record database : Type := {
  settings_table : gmap string setting;
  profiles_table : gmap string profile
}.

(** [_init_database] on a fresh file: both tables exist and are empty. *)
Definition _init_database : database :=
  {| settings_table := ∅; profiles_table := ∅ |}.

Section WithLibraries.
Context {json : Json} {fernet : Fernet}.

Definition _encrypt_value (rnd : string) (v : string) : string :=
  fernet_encrypt rnd v.

Definition _decrypt_value (encrypted_value : string) : result string :=
  fernet_decrypt encrypted_value.

(** [json.dumps(value) if not isinstance(value, str) else value] *)
Definition str_value_of (v : pyval) : result string :=
  match v with
  | PStr s => Ok s
  | _ => json_dumps v
  end.

(** [INSERT OR REPLACE INTO settings (key, value, encrypted, description,
    updated_at) VALUES (?, ?, ?, ?, CURRENT_TIMESTAMP)]: a row with the same
    key is deleted and the new row inserted; [created_at], which the
    statement does not list, takes its default [CURRENT_TIMESTAMP]. *)
Definition insert_setting (now : string) (key : string) (str_value : string)
    (encrypted : bool) (description : option string)
    (db : database) : database :=
  {| settings_table :=
       <[key := {| value := str_value;
                   encrypted := encrypted;
                   description := description;
                   created_at := now;
                   updated_at := now |}]> (settings_table db);
     profiles_table := profiles_table db |}.

(** [set]: an exception of [json.dumps] leaves the method before the
    database is opened. *)
Definition set (now rnd : string) (key : string) (v : pyval)
    (encrypted : bool) (description : option string)
    (db : database) : result database :=
  match str_value_of v with
  | Raise e => Raise e
  | Ok str_value =>
      let str_value := if encrypted then _encrypt_value rnd str_value
                       else str_value in
      Ok (insert_setting now key str_value encrypted description db)
  end.

(** The classes [except (json.JSONDecodeError, TypeError)] names. *)
Definition decode_or_type_error (e : exn) : bool :=
  match e with
  | JSONDecodeError _ => true
  | OtherException cls _ => String.eqb cls "TypeError"
  | _ => false
  end.

(** [try: return json.loads(value) except (json.JSONDecodeError,
    TypeError): return value]: any other exception of [json.loads] leaves
    [get]. *)
Definition loads_or_str (text : string) : result pyval :=
  match json_loads text with
  | Ok v => Ok v
  | Raise e => if decode_or_type_error e then Ok (PStr text) else Raise e
  end.

Definition get (key : string) (default : pyval) (db : database)
    : result pyval :=
  match settings_table db !! key with
  | None => Ok default
  | Some row =>
      if encrypted row then
        match _decrypt_value (value row) with
        | Ok text => loads_or_str text
        | Raise e => Raise e
        end
      else loads_or_str (value row)
  end.

(** [DELETE FROM settings WHERE key = ?], returning [rowcount > 0]. *)
Definition delete (key : string) (db : database) : bool * database :=
  (bool_decide (is_Some (settings_table db !! key)),
   {| settings_table := base.delete key (settings_table db);
      profiles_table := profiles_table db |}).

(** The dictionary [list_settings] builds for one row. *)
Record setting_info : Type := {
  info_encrypted : bool;
  info_description : option string;
  info_created_at : string;
  info_updated_at : string
}.

(** The columns [SELECT key, encrypted, description, created_at,
    updated_at] keeps of a row. *)
Definition select_info (row : setting) : setting_info :=
  {| info_encrypted := encrypted row;
     info_description := description row;
     info_created_at := created_at row;
     info_updated_at := updated_at row |}.

(** [ORDER BY key]: the byte order of the keys. *)
Definition key_le {A : Type} (x y : string * A) : Prop :=
  String.leb x.1 y.1 = true.

Global Instance key_le_dec {A : Type} (x y : string * A)
  : Decision (key_le x y).
Proof. unfold key_le. apply _. Defined.

(** [list_settings]: the rows of the SELECT in key order; a Python [dict]
    keeps that order, so the result is the list of its items. *)
Definition list_settings (db : database) : list (string * setting_info) :=
  merge_sort key_le (map_to_list (select_info <$> settings_table db)).

(** [INSERT OR REPLACE INTO profiles (name, settings, updated_at) VALUES
    (?, ?, CURRENT_TIMESTAMP)]: [active] and [created_at] take their
    defaults [FALSE] and [CURRENT_TIMESTAMP]. *)
Definition insert_profile (now : string) (name : string)
    (settings_text : string) (db : database) : database :=
  {| settings_table := settings_table db;
     profiles_table :=
       <[name := {| settings := settings_text;
                    active := false;
                    profile_created_at := now;
                    profile_updated_at := now |}]> (profiles_table db) |}.

(** [create_profile]: [json.dumps(settings_dict)] is evaluated before the
    statement runs, so its exception leaves the table as it is. *)
Definition create_profile (now : string) (name : string)
    (settings_dict : pyval) (db : database) : result database :=
  match json_dumps settings_dict with
  | Raise e => Raise e
  | Ok settings_text => Ok (insert_profile now name settings_text db)
  end.

(** [json.loads] of the stored text; no exception of it is caught. *)
Definition load_profile (name : string) (db : database)
    : result (option pyval) :=
  match profiles_table db !! name with
  | None => Ok None
  | Some row =>
      match json_loads (settings row) with
      | Ok v => Ok (Some v)
      | Raise e => Raise e
      end
  end.

Definition with_active (b : bool) (row : profile) : profile :=
  {| settings := settings row;
     active := b;
     profile_created_at := profile_created_at row;
     profile_updated_at := profile_updated_at row |}.

(** [UPDATE profiles SET active = FALSE], then [UPDATE profiles SET
    active = TRUE WHERE name = ?], in one transaction. *)
Definition set_active_profile (name : string) (db : database) : database :=
  let deactivated := with_active false <$> profiles_table db in
  {| settings_table := settings_table db;
     profiles_table := alter (with_active true) name deactivated |}.

(** [SELECT name FROM profiles WHERE active = TRUE] and [fetchone]: the
    first matching row of the scan, [None] when there is none. *)
Definition get_active_profile (db : database) : option string :=
  fst <$> head (filter (λ kr, active kr.2 = true)
                       (map_to_list (profiles_table db))).

Definition set_backup_directory (now rnd : string) (path : string) :=
  set now rnd "backup_directory" (PStr path) false
      (Some "Default backup directory path").
Definition get_backup_directory := get "backup_directory" (PStr "./backups").
Definition set_default_org (now rnd : string) (org : string) :=
  set now rnd "default_org" (PStr org) false
      (Some "Default GitHub organization").
Definition get_default_org := get "default_org" PNone.

(** The calls that change the store, and the stores they reach from a
    fresh database. *)
Inductive call : Type :=
  | CallSet (now rnd key : string) (v : pyval) (enc : bool)
            (descr : option string)
  | CallDelete (key : string)
  | CallCreateProfile (now name : string) (settings_dict : pyval)
  | CallSetActiveProfile (name : string).

(** The store after a call that returns or raises: a call that raises has
    changed nothing. *)
Definition store_after (db : database) (r : result database) : database :=
  match r with
  | Ok db' => db'
  | Raise _ => db
  end.

Definition run_call (db : database) (c : call) : database :=
  match c with
  | CallSet now rnd key v enc descr =>
      store_after db (set now rnd key v enc descr db)
  | CallDelete key => (delete key db).2
  | CallCreateProfile now name d =>
      store_after db (create_profile now name d db)
  | CallSetActiveProfile name => set_active_profile name db
  end.

Definition run_calls (cs : list call) : database :=
  foldl run_call _init_database cs.

(** At most one profile has [active = TRUE]. *)
Definition at_most_one_active (db : database) : Prop :=
  ∀ n1 n2 r1 r2,
    profiles_table db !! n1 = Some r1 → profiles_table db !! n2 = Some r2 →
    active r1 = true → active r2 = true → n1 = n2.

End WithLibraries.
End SettingsManager.

(** ** github_backup.py *)

Module GitHubBackup.

(** A [pathlib.Path], as the list of its components. *)
Abbreviation path := (list string).

(** [str(path)] *)
Definition str_path (p : path) : string := String.concat "/" p.

(** What the file system holds at a path: a directory, or a file with the
    JSON document [json.dump] wrote to it. *)
Inductive node : Type :=
  | Dir
  | File (content : pyval).

Definition is_dir (n : node) : bool :=
  match n with Dir => true | File _ => false end.

(** A repository as PyGithub returns it. The methods that call the remote
    API, and the [git clone] subprocess, are given by their outcome: the
    value they return or the exception they raise. The items of
    [get_issues] and [get_releases] are the dictionaries the code builds
    from them (with their comments and assets). *)
Record repository : Type := {
  name : string;
  full_name : string;
  description : option string;
  private : bool;
  fork : bool;
  created_at : option string;
  updated_at : option string;
  pushed_at : option string;
  clone_url : string;
  ssh_url : string;
  homepage : option string;
  language : option string;
  default_branch : string;
  archived : bool;
  disabled : bool;
  size : Z;
  get_topics : result (list string);
  get_issues : result (list pyval);
  get_releases : result (list pyval);
  clone_from : result unit
}.

(** The authenticated user. *)
Record github_user : Type := {
  login : string;
  user_name : option string;
  email : option string;
  bio : option string;
  blog : option string;
  location : option string;
  company : option string;
  avatar_url : string;
  user_created_at : option string;
  user_updated_at : option string;
  public_repos : Z;
  total_private_repos : option Z;
  followers : Z;
  following : Z;
  get_keys : result (list pyval);
  get_repos : result (list repository);
  get_gists : result (list pyval)
}.

(** The attributes [__init__] sets. *)
Record backup_tool : Type := {
  token : string;
  backup_dir : path;
  user : github_user
}.

(** What a run changes: the file system, the lines of the logger, the
    attribute [self.backup_root], and the lines the text interface writes
    to its [RichLog] widget. *)
Record state : Type := {
  fs : gmap path node;
  log : list (string * string);
  backup_root : option path;
  rich_log : list string
}.

Definition with_fs (f : gmap path node → gmap path node) (st : state) :=
  {| fs := f (fs st); log := log st; backup_root := backup_root st;
     rich_log := rich_log st |}.
Definition with_log (l : list (string * string)) (st : state) :=
  {| fs := fs st; log := l; backup_root := backup_root st;
     rich_log := rich_log st |}.
Definition with_backup_root (p : path) (st : state) :=
  {| fs := fs st; log := log st; backup_root := Some p;
     rich_log := rich_log st |}.
Definition with_rich_log (l : list string) (st : state) :=
  {| fs := fs st; log := log st; backup_root := backup_root st;
     rich_log := l |}.

(** A method: it runs on a state, returns or raises, and leaves a state. *)
Definition M (A : Type) : Type := state → result A * state.

#[global] Instance M_ret : MRet M := λ A a st, (Ok a, st).
#[global] Instance M_bind : MBind M := λ A B f m st,
  match m st with
  | (Ok a, st') => f a st'
  | (Raise e, st') => (Raise e, st')
  end.

Definition raise {A : Type} (e : exn) : M A := λ st, (Raise e, st).

Definition modify (f : state → state) : M unit := λ st, (Ok tt, f st).

(** The outcome of a call to the outside. *)
Definition call {A : Type} (r : result A) : M A := λ st, (r, st).

(** [try: body except ...: handler]. [handler e] is [None] when no
    [except] clause matches [e]. *)
Definition try_except {A : Type} (body : M A) (handler : exn → option (M A))
    : M A := λ st,
  match body st with
  | (Ok a, st') => (Ok a, st')
  | (Raise e, st') =>
      match handler e with
      | Some h => h st'
      | None => (Raise e, st')
      end
  end.

(** [for x in l: body], threading the variables the body assigns. *)
Fixpoint for_each {A B : Type} (body : B → A → M B) (acc : B) (l : list A)
    : M B :=
  match l with
  | [] => mret acc
  | x :: rest => acc' ← body acc x; for_each body acc' rest
  end.

Definition logger (level msg : string) : M unit :=
  modify (λ st, with_log (log st ++ [(level, msg)]) st).
Definition logger_info := logger "INFO".
Definition logger_warning := logger "WARNING".
Definition logger_error := logger "ERROR".

(** A path whose parent must exist: the current directory [[]] always
    does. *)
Definition parent (p : path) : path := removelast p.

Definition parent_is_dir (p : path) (st : state) : bool :=
  match parent p with
  | [] => true
  | q => match fs st !! q with Some Dir => true | _ => false end
  end.

(** [p.mkdir(exist_ok=True)] *)
Definition mkdir (p : path) : M unit := λ st,
  if parent_is_dir p st then
    match fs st !! p with
    | Some (File _) => (Raise (OSError "FileExistsError" (str_path p)), st)
    | _ => (Ok tt, with_fs (insert p Dir) st)
    end
  else (Raise (OSError "FileNotFoundError" (str_path p)), st).

(** [p.mkdir(parents=True, exist_ok=True)]: the missing ancestors are made
    first, from the outermost. [ancestors] are the components still to
    descend, [base] the directory reached. *)
Fixpoint mkdir_from (base : path) (ancestors : list string) : M unit :=
  match ancestors with
  | [] => mret tt
  | c :: rest => mkdir (base ++ [c]) ;; mkdir_from (base ++ [c]) rest
  end.

Definition mkdir_parents (p : path) : M unit := mkdir_from [] p.

(** [with open(p, 'w') as f: json.dump(doc, f, indent=2)] *)
Definition write_json (p : path) (doc : pyval) : M unit := λ st,
  if parent_is_dir p st then
    match fs st !! p with
    | Some Dir => (Raise (OSError "IsADirectoryError" (str_path p)), st)
    | _ => (Ok tt, with_fs (insert p (File doc)) st)
    end
  else (Raise (OSError "FileNotFoundError" (str_path p)), st).

(** [self.backup_root], an attribute only [create_backup_structure] sets. *)
Definition get_backup_root : M path := λ st,
  match backup_root st with
  | Some p => (Ok p, st)
  | None =>
      (Raise (AttributeError
         "'GitHubBackup' object has no attribute 'backup_root'"), st)
  end.

(** Python values of the fields the documents carry. *)
Definition py_opt (o : option string) : pyval :=
  match o with Some s => PStr s | None => PNone end.
Definition py_bool_str (b : bool) : string := if b then "True" else "False".

Definition directories : list string :=
  ["repositories"; "metadata"; "issues_prs"; "wikis"; "releases"; "gists";
   "settings"].

(** [timestamp] is [datetime.now().strftime("%Y%m%d_%H%M%S")]. *)
Definition create_backup_structure (self : backup_tool) (timestamp : string)
    : M unit :=
  let root := backup_dir self ++
              ["github_backup_" +:+ login (user self) +:+ "_" +:+ timestamp] in
  modify (with_backup_root root) ;;
  for_each (λ _ dir_name, mkdir_parents (root ++ [dir_name])) tt directories ;;
  logger_info ("Created backup structure at " +:+ str_path root).

Definition user_data (u : github_user) : pyval :=
  PDict [("login", PStr (login u));
         ("name", py_opt (user_name u));
         ("email", py_opt (email u));
         ("bio", py_opt (bio u));
         ("blog", py_opt (blog u));
         ("location", py_opt (location u));
         ("company", py_opt (company u));
         ("avatar_url", PStr (avatar_url u));
         ("created_at", py_opt (user_created_at u));
         ("updated_at", py_opt (user_updated_at u));
         ("public_repos", PInt (public_repos u));
         ("private_repos",
          match total_private_repos u with Some n => PInt n | None => PNone end);
         ("followers", PInt (followers u));
         ("following", PInt (following u))].

Definition backup_user_metadata (self : backup_tool) : M unit :=
  logger_info "Starting user metadata backup" ;;
  root ← get_backup_root;
  let profile_file := root ++ ["metadata"; "user_profile.json"] in
  write_json profile_file (user_data (user self)) ;;
  logger_info ("Saved user profile to " +:+ str_path profile_file) ;;
  try_except
    (ssh_keys ← call (get_keys (user self));
     root ← get_backup_root;
     write_json (root ++ ["settings"; "ssh_keys.json"]) (PList ssh_keys))
    (λ e, match e with
          | GithubException _ =>
              Some (logger_warning ("Could not backup SSH keys: " +:+ str_exn e))
          | _ => None
          end).

Definition get_all_repositories (self : backup_tool)
    : M (list repository) :=
  call (get_repos (user self)).

(** [Repo.clone_from(clone_url, repo_dir, multi_options=['--mirror'])]:
    whether git succeeds is the outcome [clone_from] of the repository; on
    success the clone is a directory at [repo_dir]. *)
Definition Repo_clone_from (repo : repository) (repo_dir : path) : M unit :=
  call (clone_from repo) ;;
  modify (with_fs (insert repo_dir Dir)).

Definition clone_repository (self : backup_tool) (repo : repository)
    (repo_dir : path) : M bool :=
  try_except
    (logger_info ("Cloning " +:+ full_name repo +:+ " to " +:+
                  str_path repo_dir) ;;
     logger_info ("Repository details: private=" +:+
                  py_bool_str (private repo) +:+ ", size=" +:+
                  pretty (size repo) +:+ "KB") ;;
     Repo_clone_from repo repo_dir ;;
     logger_info ("Successfully cloned " +:+ full_name repo) ;;
     mret true)
    (λ e, match e with
          | GitCommandError _ stderr =>
              Some (logger_error ("Git command failed for " +:+
                                  full_name repo +:+ ": " +:+ str_exn e) ;;
                    logger_error ("Command output: " +:+ stderr) ;;
                    mret false)
          | _ =>
              Some (logger_error ("Unexpected error cloning " +:+
                                  full_name repo +:+ ": " +:+ type_name e +:+
                                  ": " +:+ str_exn e) ;;
                    mret false)
          end).

(** The [metadata] dictionary, once [repo.get_topics()] has returned. *)
Definition metadata (repo : repository) (topics : list string) : pyval :=
  PDict [("name", PStr (name repo));
         ("full_name", PStr (full_name repo));
         ("description", py_opt (description repo));
         ("private", PBool (private repo));
         ("fork", PBool (fork repo));
         ("created_at", py_opt (created_at repo));
         ("updated_at", py_opt (updated_at repo));
         ("pushed_at", py_opt (pushed_at repo));
         ("clone_url", PStr (clone_url repo));
         ("ssh_url", PStr (ssh_url repo));
         ("homepage", py_opt (homepage repo));
         ("language", py_opt (language repo));
         ("topics", PList (PStr <$> topics));
         ("default_branch", PStr (default_branch repo));
         ("archived", PBool (archived repo));
         ("disabled", PBool (disabled repo))].

Definition backup_repository_metadata (self : backup_tool)
    (repo : repository) (repo_dir : path) : M unit :=
  topics ← call (get_topics repo);
  write_json (repo_dir ++ ["metadata.json"]) (metadata repo topics) ;;
  try_except
    (issues ← call (get_issues repo);
     write_json (repo_dir ++ ["issues.json"]) (PList issues))
    (λ e, match e with
          | GithubException _ =>
              Some (logger_warning ("Could not backup issues for " +:+
                                    full_name repo +:+ ": " +:+ str_exn e))
          | _ => None
          end) ;;
  try_except
    (releases ← call (get_releases repo);
     write_json (repo_dir ++ ["releases.json"]) (PList releases))
    (λ e, match e with
          | GithubException _ =>
              Some (logger_warning ("Could not backup releases for " +:+
                                    full_name repo +:+ ": " +:+ str_exn e))
          | _ => None
          end).

(** The body of the [for repo in repos] loop of [backup_repositories], on
    the counters [(clone_success, clone_failures)]. *)
Definition backup_repositories_body (self : backup_tool)
    (counters : nat * nat) (repo : repository) : M (nat * nat) :=
  logger_info ("Processing repository: " +:+ full_name repo) ;;
  root ← get_backup_root;
  let repo_dir := root ++ ["repositories"; name repo] in
  mkdir repo_dir ;;
  cloned ← clone_repository self repo (repo_dir ++ ["git"]);
  counters ←
    (if cloned : bool then
       logger_info ("Successfully cloned " +:+ full_name repo) ;;
       mret (S counters.1, counters.2)
     else
       logger_error ("Failed to clone " +:+ full_name repo) ;;
       mret (counters.1, S counters.2));
  logger_info ("Backing up metadata for " +:+ full_name repo) ;;
  backup_repository_metadata self repo repo_dir ;;
  mret counters.

Definition backup_repositories (self : backup_tool) : M unit :=
  repos ← get_all_repositories self;
  logger_info ("Starting backup of " +:+ pretty (length repos) +:+
               " repositories") ;;
  counters ← for_each (backup_repositories_body self) (0, 0) repos;
  logger_info ("Repository backup completed: " +:+ pretty counters.1 +:+
               " successful, " +:+ pretty counters.2 +:+ " failed").

Definition backup_gists (self : backup_tool) : M unit :=
  try_except
    (gists ← call (get_gists (user self));
     root ← get_backup_root;
     write_json (root ++ ["gists"; "gists.json"]) (PList gists))
    (λ e, match e with
          | GithubException _ =>
              Some (logger_error ("Failed to backup gists: " +:+ str_exn e))
          | _ => None
          end).

(** The [summary] dictionary; [x or 0] is [0] for [None]. *)
Definition summary (self : backup_tool) (backup_date : string) (root : path)
    : pyval :=
  PDict [("backup_date", PStr backup_date);
         ("user", PStr (login (user self)));
         ("backup_location", PStr (str_path root));
         ("repositories_count",
          PInt (public_repos (user self) +
                default 0%Z (total_private_repos (user self))));
         ("status", PStr "completed")].

(** [timestamp] and [backup_date] are the two readings of [datetime.now()],
    as [create_backup_structure] and the summary format them. *)
Definition run_backup (self : backup_tool) (timestamp backup_date : string)
    : M unit :=
  try_except
    (create_backup_structure self timestamp ;;
     backup_user_metadata self ;;
     backup_repositories self ;;
     backup_gists self ;;
     root ← get_backup_root;
     write_json (root ++ ["backup_summary.json"])
                (summary self backup_date root))
    (λ e, Some (logger_error ("Backup failed: " +:+ str_exn e) ;; raise e)).

End GitHubBackup.

(** ** tui_app.py: the selective backup *)

Module SelectiveBackupProgressScreen.
Import GitHubBackup.

(** The attributes [__init__] sets. *)
Record screen : Type := {
  tool : backup_tool;
  selected_repos : gset string
}.

(** [log.write(line)] on the [RichLog] widget. The progress bars and status
    labels are presentation only and are left out. *)
Definition log_write (line : string) : M unit :=
  modify (λ st, with_rich_log (rich_log st ++ [line]) st).

(** The body of the [for i, repo in enumerate(selected_repo_objects)]
    loop, on the counters [(clone_success, clone_failures)]. *)
Definition _backup_selected_repositories_body (self : screen)
    (counters : nat * nat) (repo : repository) : M (nat * nat) :=
  log_write ("Processing repository: " +:+ full_name repo) ;;
  root ← get_backup_root;
  let repo_dir := root ++ ["repositories"; name repo] in
  mkdir repo_dir ;;
  cloned ← clone_repository (tool self) repo (repo_dir ++ ["git"]);
  counters ←
    (if cloned : bool then
       log_write ("✓ Cloned " +:+ full_name repo) ;;
       mret (S counters.1, counters.2)
     else
       log_write ("✗ Failed to clone " +:+ full_name repo) ;;
       mret (counters.1, S counters.2));
  log_write ("Backing up metadata for " +:+ full_name repo) ;;
  backup_repository_metadata (tool self) repo repo_dir ;;
  mret counters.

(** [[repo for repo in all_repos if repo.name in self.selected_repos]] *)
Definition selected_repo_objects (self : screen)
    (all_repos : list repository) : list repository :=
  filter (λ repo, name repo ∈ selected_repos self) all_repos.

Definition _backup_selected_repositories (self : screen) : M unit :=
  all_repos ← get_all_repositories (tool self);
  counters ← for_each (_backup_selected_repositories_body self) (0, 0)
                      (selected_repo_objects self all_repos);
  log_write ("Repository backup completed: " +:+ pretty counters.1 +:+
             " successful, " +:+ pretty counters.2 +:+ " failed").

Definition _run_selective_backup_sync (self : screen) (timestamp : string)
    : M unit :=
  try_except
    (log_write "📁 Creating backup directory structure..." ;;
     create_backup_structure (tool self) timestamp ;;
     log_write "👤 Backing up user information..." ;;
     backup_user_metadata (tool self) ;;
     log_write ("📦 Backing up " +:+ pretty (base.size (selected_repos self)) +:+
                " selected repositories...") ;;
     _backup_selected_repositories self ;;
     log_write "📝 Skipping gists in selective backup..." ;;
     log_write "✅ Selective backup completed successfully!")
    (λ e, Some (log_write ("❌ Selective backup failed: " +:+ str_exn e) ;;
                raise e)).

End SelectiveBackupProgressScreen.

(** ** Instances of the libraries, to run the code on examples *)

(** A JSON codec on [pyval], to run the code on examples. It follows
    [json.dumps] and [json.loads] of CPython 3.11 with their default
    arguments: the layout of [dumps] (separators [", "] and [": "], text
    outside printable ASCII escaped), the grammar of [loads], the classes
    of the exceptions, dictionaries with the last value of a repeated key.
    A string is the UTF-8 text of a Python [str] (a lone surrogate as its
    three bytes). Three things are not modelled. The messages of the
    exceptions are abridged. [pyval] has no floating point numbers: on a
    text that holds a number with a fraction or an exponent, [NaN] or
    [Infinity], [loads] answers with [NotModelled], which is no exception
    of Python, and so does [dumps] on a string that is not UTF-8. And the
    depth at which the interpreter raises [RecursionError] depends on the
    frames in use: [max_nesting] is the depth reached with the default
    limit of 1000 frames when ten are in use. The examples hold no
    float, and their nesting is far below or far above that depth. *)
Module SimpleJson.

Definition dquote : ascii := ascii_of_nat 34.
Definition backslash : ascii := ascii_of_nat 92.

Definition max_nesting : nat := 990.
Definition max_str_digits : nat := 4300.

Definition not_modelled (what : string) : exn :=
  OtherException "NotModelled" what.
Definition recursion_error : exn :=
  OtherException "RecursionError" "maximum recursion depth exceeded".
Definition digits_error : exn :=
  OtherException "ValueError"
    "Exceeds the limit (4300 digits) for integer string conversion".

(** *** Text and code points *)

Definition byte (c : ascii) : N := N_of_ascii c.
Definition chr (n : N) : ascii := ascii_of_N n.

Definition is_continuation (b : N) : bool := (128 <=? b)%N && (b <? 192)%N.

(** The code points of a UTF-8 text; [None] when the bytes are not the
    UTF-8 form of code points. *)
Fixpoint code_points (s : string) : option (list N) :=
  match s with
  | EmptyString => Some []
  | String c0 rest0 =>
      let b0 := byte c0 in
      if (b0 <? 128)%N then cons b0 <$> code_points rest0
      else
        match rest0 with
        | String c1 rest1 =>
            let b1 := byte c1 in
            if negb (is_continuation b1) then None
            else if (194 <=? b0)%N && (b0 <? 224)%N then
              cons ((b0 - 192) * 64 + (b1 - 128))%N <$> code_points rest1
            else
              match rest1 with
              | String c2 rest2 =>
                  let b2 := byte c2 in
                  if negb (is_continuation b2) then None
                  else if (224 <=? b0)%N && (b0 <? 240)%N then
                    let cp := ((b0 - 224) * 4096 + (b1 - 128) * 64 +
                               (b2 - 128))%N in
                    if (cp <? 2048)%N then None
                    else cons cp <$> code_points rest2
                  else
                    match rest2 with
                    | String c3 rest3 =>
                        let b3 := byte c3 in
                        if negb (is_continuation b3) then None
                        else if (240 <=? b0)%N && (b0 <? 245)%N then
                          let cp := ((b0 - 240) * 262144 +
                                     (b1 - 128) * 4096 + (b2 - 128) * 64 +
                                     (b3 - 128))%N in
                          if (cp <? 65536)%N || (1114111 <? cp)%N then None
                          else cons cp <$> code_points rest3
                        else None
                    | EmptyString => None
                    end
              | EmptyString => None
              end
        | EmptyString => None
        end
  end.

(** The UTF-8 form of a code point. *)
Definition utf8 (cp : N) : string :=
  if (cp <? 128)%N then String (chr cp) EmptyString
  else if (cp <? 2048)%N then
    String (chr (192 + cp / 64)) (String (chr (128 + cp mod 64)) EmptyString)
  else if (cp <? 65536)%N then
    String (chr (224 + cp / 4096))
      (String (chr (128 + (cp / 64) mod 64))
         (String (chr (128 + cp mod 64)) EmptyString))
  else
    String (chr (240 + cp / 262144))
      (String (chr (128 + (cp / 4096) mod 64))
         (String (chr (128 + (cp / 64) mod 64))
            (String (chr (128 + cp mod 64)) EmptyString))).

Definition hex_digit (n : N) : ascii :=
  if (n <? 10)%N then chr (48 + n) else chr (87 + n).

(** [\uXXXX], in lower case as [json.dumps] writes it. *)
Definition u_escape (n : N) : string :=
  String backslash
    (String "u"
       (String (hex_digit (n / 4096))
          (String (hex_digit ((n / 256) mod 16))
             (String (hex_digit ((n / 16) mod 16))
                (String (hex_digit (n mod 16)) EmptyString))))).

Definition short_escape (c : ascii) : string :=
  String backslash (String c EmptyString).

(** A code point as [json.dumps] writes it inside a string. *)
Definition escape_code_point (cp : N) : string :=
  if (cp =? 34)%N then short_escape dquote
  else if (cp =? 92)%N then short_escape backslash
  else if (cp =? 10)%N then short_escape "n"
  else if (cp =? 13)%N then short_escape "r"
  else if (cp =? 9)%N then short_escape "t"
  else if (cp =? 8)%N then short_escape "b"
  else if (cp =? 12)%N then short_escape "f"
  else if (32 <=? cp)%N && (cp <? 127)%N then String (chr cp) EmptyString
  else if (cp <? 65536)%N then u_escape cp
  else
    let v := (cp - 65536)%N in
    u_escape (55296 + v / 1024) +:+ u_escape (56320 + v mod 1024).

Definition join (sep : string) (l : list string) : string :=
  String.concat sep l.

Definition quote (s : string) : result string :=
  match code_points s with
  | Some cps =>
      Ok (String dquote (join "" (escape_code_point <$> cps)) +:+
          String dquote EmptyString)
  | None => Raise (not_modelled "a string that is not UTF-8")
  end.

(** *** [dumps] *)

Definition digits_of (n : Z) : nat := String.length (pretty (Z.abs n)).

Fixpoint dumps_at (v : pyval) (depth : nat) {struct v} : result string :=
  match v with
  | PNone => Ok "null"
  | PBool true => Ok "true"
  | PBool false => Ok "false"
  | PInt n =>
      if (max_str_digits <? digits_of n)%nat then Raise digits_error
      else Ok (pretty n)
  | PStr s => quote s
  | PList l | PTuple l =>
      match depth with
      | O => Raise recursion_error
      | S depth =>
          let items :=
            (fix items (l : list pyval) : result (list string) :=
               match l with
               | [] => Ok []
               | x :: l =>
                   match dumps_at x depth with
                   | Raise e => Raise e
                   | Ok t =>
                       match items l with
                       | Raise e => Raise e
                       | Ok ts => Ok (t :: ts)
                       end
                   end
               end) l in
          match items with
          | Raise e => Raise e
          | Ok ts => Ok ("[" +:+ join ", " ts +:+ "]")
          end
      end
  | PDict d =>
      match depth with
      | O => Raise recursion_error
      | S depth =>
          let items :=
            (fix items (d : list (string * pyval)) : result (list string) :=
               match d with
               | [] => Ok []
               | (k, x) :: d =>
                   match quote k with
                   | Raise e => Raise e
                   | Ok tk =>
                       match dumps_at x depth with
                       | Raise e => Raise e
                       | Ok t =>
                           match items d with
                           | Raise e => Raise e
                           | Ok ts => Ok ((tk +:+ ": " +:+ t) :: ts)
                           end
                       end
                   end
               end) d in
          match items with
          | Raise e => Raise e
          | Ok ts => Ok ("{" +:+ join ", " ts +:+ "}")
          end
      end
  end.

Definition dumps (v : pyval) : result string := dumps_at v max_nesting.

(** *** [loads] *)

Definition is_ws (c : ascii) : bool :=
  let n := nat_of_ascii c in
  (n =? 32)%nat || (n =? 9)%nat || (n =? 10)%nat || (n =? 13)%nat.

Fixpoint skip_ws (s : string) : string :=
  match s with
  | String c rest => if is_ws c then skip_ws rest else s
  | EmptyString => s
  end.

Fixpoint strip_prefix (p s : string) : option string :=
  match p, s with
  | EmptyString, _ => Some s
  | String a p', String b s' =>
      if Ascii.eqb a b then strip_prefix p' s' else None
  | _, _ => None
  end.

Definition digit (c : ascii) : option Z :=
  let n := nat_of_ascii c in
  if (48 <=? n)%nat && (n <=? 57)%nat then Some (Z.of_nat (n - 48)) else None.

(** The digits at the head of a text: their value, their number, and the
    rest. *)
Fixpoint parse_digits (acc : Z) (count : nat) (s : string)
    : Z * nat * string :=
  match s with
  | String c rest =>
      match digit c with
      | Some d => parse_digits (10 * acc + d) (S count) rest
      | None => (acc, count, s)
      end
  | EmptyString => (acc, count, s)
  end.

(** A point and digits: the rest after a fraction, if there is one. *)
Definition after_fraction (s : string) : option string :=
  match s with
  | String "." r =>
      let '(_, count, rest) := parse_digits 0 0 r in
      if (count =? 0)%nat then None else Some rest
  | _ => None
  end.

(** [e] or [E], an optional sign and digits: the rest after an exponent,
    if there is one. *)
Definition after_exponent (s : string) : option string :=
  match s with
  | String c r =>
      if Ascii.eqb c "e" || Ascii.eqb c "E" then
        let r :=
          match r with
          | String "+" r' => r'
          | String "-" r' => r'
          | _ => r
          end in
        let '(_, count, rest) := parse_digits 0 0 r in
        if (count =? 0)%nat then None else Some rest
      else None
  | EmptyString => None
  end.

(** What [loads] builds: the value, and whether a float is in it, whose
    place [PNone] takes. *)
Definition built : Type := pyval * bool.

Definition expecting_value : exn := JSONDecodeError "Expecting value".

(** A number: an optional minus, then [0] or digits that do not start
    with [0], then an optional fraction and an optional exponent. *)
Definition parse_number (s : string) : result (built * string) :=
  let '(negative, s1) :=
    match s with
    | String "-" r => (true, r)
    | _ => (false, s)
    end in
  match s1 with
  | String c rest =>
      match digit c with
      | Some d =>
          let '(n, count, r) := if (d =? 0)%Z then (0%Z, 1%nat, rest)
                                else parse_digits d 1 rest in
          let '(fraction, r1) :=
            match after_fraction r with
            | Some r1 => (true, r1)
            | None => (false, r)
            end in
          let '(exponent, r2) :=
            match after_exponent r1 with
            | Some r2 => (true, r2)
            | None => (false, r1)
            end in
          if fraction || exponent then Ok ((PNone, true), r2)
          else if (max_str_digits <? count)%nat then Raise digits_error
          else Ok ((PInt (if negative then - n else n)%Z, false), r2)
      | None => Raise expecting_value
      end
  | EmptyString => Raise expecting_value
  end.

Definition hex_value (c : ascii) : option N :=
  let n := byte c in
  if (48 <=? n)%N && (n <=? 57)%N then Some (n - 48)%N
  else if (97 <=? n)%N && (n <=? 102)%N then Some (n - 87)%N
  else if (65 <=? n)%N && (n <=? 70)%N then Some (n - 55)%N
  else None.

(** Four hexadecimal digits and the rest. *)
Definition parse_hex4 (s : string) : option (N * string) :=
  match s with
  | String a (String b (String c (String d rest))) =>
      match hex_value a, hex_value b, hex_value c, hex_value d with
      | Some x, Some y, Some z, Some w =>
          Some ((x * 4096 + y * 256 + z * 16 + w)%N, rest)
      | _, _, _, _ => None
      end
  | _ => None
  end.

Definition unescape (c : ascii) : option ascii :=
  if Ascii.eqb c dquote then Some dquote
  else if Ascii.eqb c backslash then Some backslash
  else if Ascii.eqb c "/" then Some "/"%char
  else if Ascii.eqb c "n" then Some (ascii_of_nat 10)
  else if Ascii.eqb c "r" then Some (ascii_of_nat 13)
  else if Ascii.eqb c "t" then Some (ascii_of_nat 9)
  else if Ascii.eqb c "b" then Some (ascii_of_nat 8)
  else if Ascii.eqb c "f" then Some (ascii_of_nat 12)
  else None.

Definition is_high_surrogate (n : N) : bool :=
  (55296 <=? n)%N && (n <? 56320)%N.
Definition is_low_surrogate (n : N) : bool :=
  (56320 <=? n)%N && (n <? 57344)%N.

(** The low surrogate that follows a high one, and the rest after it. *)
Definition parse_low_surrogate (s : string) : option (N * string) :=
  match s with
  | String b (String u r) =>
      if Ascii.eqb b backslash && Ascii.eqb u "u" then
        match parse_hex4 r with
        | Some (lo, rest) =>
            if is_low_surrogate lo then Some (lo, rest) else None
        | None => None
        end
      else None
  | _ => None
  end.

(** The text of a string after its opening quote, and what follows the
    closing quote. [fuel] bounds the characters read. *)
Fixpoint parse_string_body (fuel : nat) (s : string)
    : result (string * string) :=
  match fuel with
  | O => Raise (JSONDecodeError "Unterminated string starting at")
  | S fuel =>
      match s with
      | EmptyString => Raise (JSONDecodeError "Unterminated string starting at")
      | String c rest =>
          if Ascii.eqb c dquote then Ok (EmptyString, rest)
          else if Ascii.eqb c backslash then
            match rest with
            | String e rest' =>
                if Ascii.eqb e "u" then
                  match parse_hex4 rest' with
                  | Some (hi, r) =>
                      let '(cp, r) :=
                        if is_high_surrogate hi then
                          match parse_low_surrogate r with
                          | Some (lo, r') =>
                              ((65536 + (hi - 55296) * 1024 + (lo - 56320))%N,
                               r')
                          | None => (hi, r)
                          end
                        else (hi, r) in
                      match parse_string_body fuel r with
                      | Ok (body, r') => Ok (utf8 cp +:+ body, r')
                      | Raise e => Raise e
                      end
                  | None => Raise (JSONDecodeError "Invalid \uXXXX escape")
                  end
                else
                  match unescape e with
                  | Some ch =>
                      match parse_string_body fuel rest' with
                      | Ok (body, r) => Ok (String ch body, r)
                      | Raise e => Raise e
                      end
                  | None => Raise (JSONDecodeError "Invalid \escape")
                  end
            | EmptyString =>
                Raise (JSONDecodeError "Unterminated string starting at")
            end
          else if (nat_of_ascii c <? 32)%nat
          then Raise (JSONDecodeError "Invalid control character at")
          else
            match parse_string_body fuel rest with
            | Ok (body, r) => Ok (String c body, r)
            | Raise e => Raise e
            end
      end
  end.

(** [dict(pairs)]: a repeated key keeps its first place and takes the last
    value. *)
Fixpoint dict_set (k : string) (v : pyval) (d : list (string * pyval))
    : list (string * pyval) :=
  match d with
  | [] => [(k, v)]
  | (k', v') :: d =>
      if String.eqb k' k then (k', v) :: d else (k', v') :: dict_set k v d
  end.

Definition dict_of_pairs (pairs : list (string * pyval))
    : list (string * pyval) :=
  foldl (λ d kv, dict_set kv.1 kv.2 d) [] pairs.

Definition constant (text : string) (v : built) (s : string)
    : result (built * string) :=
  match strip_prefix text s with
  | Some rest => Ok (v, rest)
  | None => Raise expecting_value
  end.

(** A value at the head of a text. [fuel] bounds the calls, [depth] the
    nesting still allowed. *)
Fixpoint parse_value (fuel depth : nat) (s : string)
    : result (built * string) :=
  match fuel with
  | O => Raise expecting_value
  | S fuel =>
      match skip_ws s with
      | EmptyString => Raise expecting_value
      | String c rest as s' =>
          if Ascii.eqb c "n" then constant "null" (PNone, false) s'
          else if Ascii.eqb c "t" then constant "true" (PBool true, false) s'
          else if Ascii.eqb c "f"
          then constant "false" (PBool false, false) s'
          else if Ascii.eqb c "N" then constant "NaN" (PNone, true) s'
          else if Ascii.eqb c "I" then constant "Infinity" (PNone, true) s'
          else if Ascii.eqb c dquote then
            match parse_string_body (S (String.length rest)) rest with
            | Ok (text, r) => Ok ((PStr text, false), r)
            | Raise e => Raise e
            end
          else if Ascii.eqb c "[" then
            match depth with
            | O => Raise recursion_error
            | S depth =>
                match skip_ws rest with
                | String "]" r => Ok ((PList [], false), r)
                | _ =>
                    match parse_elements fuel depth rest with
                    | Ok ((l, float), r) => Ok ((PList l, float), r)
                    | Raise e => Raise e
                    end
                end
            end
          else if Ascii.eqb c "{" then
            match depth with
            | O => Raise recursion_error
            | S depth =>
                match skip_ws rest with
                | String "}" r => Ok ((PDict [], false), r)
                | _ =>
                    match parse_members fuel depth rest with
                    | Ok ((d, float), r) =>
                        Ok ((PDict (dict_of_pairs d), float), r)
                    | Raise e => Raise e
                    end
                end
            end
          else
            match strip_prefix "-Infinity" s' with
            | Some r => Ok ((PNone, true), r)
            | None => parse_number s'
            end
      end
  end
with parse_elements (fuel depth : nat) (s : string)
    : result (list pyval * bool * string) :=
  match fuel with
  | O => Raise expecting_value
  | S fuel =>
      match parse_value fuel depth s with
      | Ok ((v, float), r) =>
          match skip_ws r with
          | String "," r' =>
              match parse_elements fuel depth r' with
              | Ok ((l, float'), r'') => Ok ((v :: l, float || float'), r'')
              | Raise e => Raise e
              end
          | String "]" r' => Ok (([v], float), r')
          | _ => Raise (JSONDecodeError "Expecting ',' delimiter")
          end
      | Raise e => Raise e
      end
  end
with parse_members (fuel depth : nat) (s : string)
    : result (list (string * pyval) * bool * string) :=
  match fuel with
  | O => Raise expecting_value
  | S fuel =>
      match skip_ws s with
      | String c rest =>
          if Ascii.eqb c dquote then
            match parse_string_body (S (String.length rest)) rest with
            | Ok (key, r) =>
                match skip_ws r with
                | String ":" r1 =>
                    match parse_value fuel depth r1 with
                    | Ok ((v, float), r2) =>
                        match skip_ws r2 with
                        | String "," r3 =>
                            match parse_members fuel depth r3 with
                            | Ok ((d, float'), r4) =>
                                Ok (((key, v) :: d, float || float'), r4)
                            | Raise e => Raise e
                            end
                        | String "}" r3 => Ok (([(key, v)], float), r3)
                        | _ => Raise (JSONDecodeError "Expecting ',' delimiter")
                        end
                    | Raise e => Raise e
                    end
                | _ => Raise (JSONDecodeError "Expecting ':' delimiter")
                end
            | Raise e => Raise e
            end
          else Raise (JSONDecodeError
                        "Expecting property name enclosed in double quotes")
      | EmptyString =>
          Raise (JSONDecodeError
                   "Expecting property name enclosed in double quotes")
      end
  end.

Definition loads (s : string) : result pyval :=
  match parse_value (2 * String.length s + 2) max_nesting s with
  | Ok ((v, float), rest) =>
      match skip_ws rest with
      | EmptyString =>
          if float then Raise (not_modelled "a floating point number")
          else Ok v
      | _ => Raise (JSONDecodeError "Extra data")
      end
  | Raise e => Raise e
  end.

Definition simple_json : Json :=
  {| json_dumps := dumps; json_loads := loads |}.

End SimpleJson.

(** A stand-in for Fernet that keeps the shape of its tokens (a fixed
    prefix, then the text with one bit of every byte flipped) and ignores
    the time stamp and the initialisation vector. *)
Module ToyFernet.

Definition flip (c : ascii) : ascii :=
  match c with
  | Ascii b0 b1 b2 b3 b4 b5 b6 b7 => Ascii (negb b0) b1 b2 b3 b4 b5 b6 b7
  end.

Fixpoint flip_all (s : string) : string :=
  match s with
  | EmptyString => EmptyString
  | String c rest => String (flip c) (flip_all rest)
  end.

Definition encrypt (rnd text : string) : string :=
  "gAAAAA" +:+ flip_all text.

Definition decrypt (tok : string) : result string :=
  match SimpleJson.strip_prefix "gAAAAA" tok with
  | Some body => Ok (flip_all body)
  | None => Raise InvalidToken
  end.

Definition toy_fernet : Fernet :=
  {| fernet_encrypt := encrypt; fernet_decrypt := decrypt |}.

End ToyFernet.

(** ** Example accounts *)

Module Examples.
Import GitHubBackup.

(** A public repository of [octocat] with the given name and outcomes of
    its remote calls. *)
Definition repo (n : string) (cloned : result unit)
    (topics : result (list string)) (issues releases : result (list pyval))
    : repository :=
  {| name := n;
     full_name := "octocat/" +:+ n;
     description := None;
     private := false;
     fork := false;
     created_at := Some "2024-01-01T00:00:00";
     updated_at := Some "2024-01-02T00:00:00";
     pushed_at := None;
     clone_url := "https://github.com/octocat/" +:+ n +:+ ".git";
     ssh_url := "git@github.com:octocat/" +:+ n +:+ ".git";
     homepage := None;
     language := Some "Python";
     default_branch := "main";
     archived := false;
     disabled := false;
     size := 12;
     get_topics := topics;
     get_issues := issues;
     get_releases := releases;
     clone_from := cloned |}.

(** A repository whose calls all succeed. *)
Definition good_repo (n : string) : repository :=
  repo n (Ok tt) (Ok ["backup"]) (Ok []) (Ok []).

(** A repository whose clone fails in git. *)
Definition unclonable_repo (n : string) : repository :=
  repo n (Raise (GitCommandError "Cmd('git') failed" "fatal: not found"))
       (Ok []) (Ok []) (Ok []).

Definition octocat (public private : Z) (repos : list repository)
    : github_user :=
  {| login := "octocat";
     user_name := Some "The Octocat";
     email := None;
     bio := None;
     blog := None;
     location := None;
     company := None;
     avatar_url := "https://avatars.githubusercontent.com/u/583231";
     user_created_at := Some "2011-01-25T18:44:36";
     user_updated_at := None;
     public_repos := public;
     total_private_repos := Some private;
     followers := 3;
     following := 0;
     get_keys := Ok [];
     get_repos := Ok repos;
     get_gists := Ok [] |}.

Definition tool_for (u : github_user) : backup_tool :=
  {| token := "ghp_example"; backup_dir := ["backups"]; user := u |}.

(** The state [__init__] leaves on an empty disk: the backup directory. *)
Definition fresh_state : state :=
  {| fs := {[ ["backups"] := Dir ]};
     log := [];
     backup_root := None;
     rich_log := [] |}.

Definition root : path := ["backups"; "github_backup_octocat_20240101_120000"].

(** Two repositories, the second of which fails to clone; the account
    reports seven repositories of its own. *)
Definition one_failure : backup_tool :=
  tool_for (octocat 4 3 [good_repo "alpha"; unclonable_repo "beta"]).

(** Every repository fails to clone. *)
Definition all_fail : backup_tool :=
  tool_for (octocat 2 0 [unclonable_repo "alpha"; unclonable_repo "beta"]).

(** A repository whose topics cannot be fetched. *)
Definition topics_fail : backup_tool :=
  tool_for (octocat 2 0
    [repo "alpha" (Ok tt) (Raise (GithubException "502 Bad Gateway"))
          (Ok []) (Ok []);
     good_repo "beta"]).

(** A repository whose issues cannot be fetched. *)
Definition issues_fail : repository :=
  repo "alpha" (Ok tt) (Ok []) (Raise (GithubException "410 Gone"))
       (Ok [PDict [("tag_name", PStr "v1")]]).

Definition issues_fail_account : backup_tool :=
  tool_for (octocat 1 0 [issues_fail]).

(** A repository whose issues fetch loses its connection. *)
Definition issues_disconnect : backup_tool :=
  tool_for (octocat 1 0
    [repo "alpha" (Ok tt) (Ok [])
          (Raise (OtherException "ConnectionError" "Connection aborted"))
          (Ok [])]).

(** A state in the middle of a run: the structure of the backup exists. *)
Definition structured_state : state :=
  {| fs := {[ ["backups"] := Dir;
              root := Dir;
              root ++ ["repositories"] := Dir ]};
     log := [];
     backup_root := Some root;
     rich_log := [] |}.

(** An account of five repositories, and a selection of two of them. *)
Definition five : backup_tool :=
  tool_for (octocat 5 0
    [good_repo "a"; good_repo "b"; unclonable_repo "c"; good_repo "d";
     good_repo "e"]).

Definition selective : SelectiveBackupProgressScreen.screen :=
  {| SelectiveBackupProgressScreen.tool := five;
     SelectiveBackupProgressScreen.selected_repos := {["b"; "d"]} |}.

(** A selection with a name the account does not have. *)
Definition selective_unknown : SelectiveBackupProgressScreen.screen :=
  {| SelectiveBackupProgressScreen.tool := five;
     SelectiveBackupProgressScreen.selected_repos := {["c"; "zzz"]} |}.

End Examples.

(** ** Vocabulary for the properties of a backup run *)

Module BackupSpec.
Import GitHubBackup.

(** The layout of a backup below its root: [Some true] where a directory
    belongs, [Some false] where a JSON file belongs, [None] elsewhere. *)
Definition layout (p : path) : option bool :=
  match p with
  | [] => Some true
  | [d] =>
      if bool_decide (d ∈ directories) then Some true
      else if String.eqb d "backup_summary.json" then Some false
      else None
  | [d; f] =>
      if String.eqb d "repositories" then Some true
      else if String.eqb d "metadata" && String.eqb f "user_profile.json"
      then Some false
      else if String.eqb d "settings" && String.eqb f "ssh_keys.json"
      then Some false
      else if String.eqb d "gists" && String.eqb f "gists.json"
      then Some false
      else None
  | [d; _; f] =>
      if String.eqb d "repositories" then
        if String.eqb f "git" then Some true
        else if bool_decide
                  (f ∈ ["metadata.json"; "issues.json"; "releases.json"])
        then Some false
        else None
      else None
  | _ => None
  end.

(** A state in the middle of a run with root [root]: the attribute is set
    and what lies below the root follows the layout; the log lines [L] have
    been written, the paths [U] are absent and the paths [D] are
    directories. *)
Record consistent (root : path) (L : string * string → Prop)
    (U D : path → Prop) (st : state) : Prop := {
  cons_root : backup_root st = Some root;
  cons_layout : ∀ p n, fs st !! (root ++ p) = Some n →
                       layout p = Some (is_dir n);
  cons_log : ∀ x, L x → x ∈ log st;
  cons_absent : ∀ q, U q → fs st !! q = None;
  cons_dirs : ∀ q, D q → fs st !! q = Some Dir
}.

(** From every state in [P], [m] returns (it does not raise) a value and a
    state in [Q]. *)
Definition returns {A : Type} (P : state → Prop) (m : M A)
    (Q : A → state → Prop) : Prop :=
  ∀ st, P st → ∃ a st', m st = (Ok a, st') ∧ Q a st'.

(** From every state in [P], [m] raises [e] and leaves a state in [Q]. *)
Definition raises {A : Type} (P : state → Prop) (m : M A) (e : exn)
    (Q : state → Prop) : Prop :=
  ∀ st, P st → ∃ st', m st = (Raise e, st') ∧ Q st'.

Definition is_ok {A : Type} (r : result A) : bool :=
  match r with Ok _ => true | Raise _ => false end.

(** A remote call that returns or raises [GithubException], the exception
    the [except] clauses around the sub-fetches name. *)
Definition soft {A : Type} (r : result A) : bool :=
  match r with
  | Ok _ | Raise (GithubException _) => true
  | Raise _ => false
  end.

(** A repository whose topics can be fetched and whose issues and releases
    are fetched or fail softly. Its clone is free to fail. *)
Definition healthy_repo (r : repository) : bool :=
  is_ok (get_topics r) && soft (get_issues r) && soft (get_releases r).

(** [p.mkdir(exist_ok=True)] and [open(p, 'w')] find nothing of the other
    kind at [p]. *)
Definition can_mkdir (st : state) (p : path) : bool :=
  match fs st !! p with Some (File _) => false | _ => true end.
Definition can_write (st : state) (p : path) : bool :=
  match fs st !! p with Some Dir => false | _ => true end.

(** The file a sub-fetch leaves at [p]: the list it fetched, or what was
    there before when it failed. *)
Definition fetched (r : result (list pyval)) (st : state) (p : path)
    : option node :=
  match r with
  | Ok l => Some (File (PList l))
  | Raise _ => fs st !! p
  end.

(** The root [create_backup_structure] chooses. *)
Definition root_of (self : backup_tool) (timestamp : string) : path :=
  backup_dir self ++
  ["github_backup_" +:+ login (user self) +:+ "_" +:+ timestamp].

(** Nothing exists at or below [root]. *)
Definition fresh (root : path) (st : state) : Prop :=
  ∀ p, fs st !! (root ++ p) = None.

(** [d] and the directories above it exist. *)
Definition dir_exists (d : path) (st : state) : Prop :=
  ∀ q, q ≠ [] → q `prefix_of` d → fs st !! q = Some Dir.

(** The repositories of a list whose clone succeeds, and fails. *)
Definition cloned (l : list repository) : list repository :=
  filter (λ r, is_ok (clone_from r) = true) l.
Definition not_cloned (l : list repository) : list repository :=
  filter (λ r, is_ok (clone_from r) = false) l.

(** The counters after the loop body has run on [r]. *)
Definition count_clone (counters : nat * nat) (r : repository) : nat * nat :=
  if is_ok (clone_from r) then (S counters.1, counters.2)
  else (counters.1, S counters.2).

(** The line [backup_repositories] logs when its loop ends. *)
Definition completed_line (succeeded failed : nat) : string * string :=
  ("INFO", "Repository backup completed: " +:+ pretty succeeded +:+
           " successful, " +:+ pretty failed +:+ " failed").

(** The field [k] of the JSON object in the file at [p]. *)
Definition file_field (st : state) (p : path) (k : string) : option pyval :=
  match fs st !! p with
  | Some (File (PDict d)) => snd <$> head (filter (λ kv, kv.1 = k) d)
  | _ => None
  end.

(** What both loop bodies do to a consistent state: they count the clone
    and leave the directory of the repository. *)
Definition body_spec (root : path) (L : string * string → Prop)
    (U : path → Prop) (body : nat * nat → repository → M (nat * nat))
    : Prop :=
  ∀ (D : path → Prop) counters repo,
    healthy_repo repo = true →
    D (root ++ ["repositories"]) →
    (∀ rest, ¬ U (root ++ "repositories" :: name repo :: rest)) →
    returns (consistent root L U D) (body counters repo)
      (λ c st, c = count_clone counters repo ∧
               consistent root L U
                 (λ x, D x ∨ x = root ++ ["repositories"; name repo]) st).

(** The directories above [bd] are known to exist. *)
Definition above (bd : path) (D : path → Prop) : Prop :=
  ∀ q, q ≠ [] → q `prefix_of` bd → D q.

(** The directories [create_backup_structure] leaves. *)
Definition structure (root : path) (x : path) : Prop :=
  x = root ∨ ∃ d, d ∈ directories ∧ x = root ++ [d].

(** The names a selective run backs up: those selected that the account
    has. *)
Definition in_scope (self : SelectiveBackupProgressScreen.screen)
    (repos : list repository) (n : string) : Prop :=
  n ∈ SelectiveBackupProgressScreen.selected_repos self ∧ n ∈ name <$> repos.

#[global] Instance in_scope_dec self repos n : Decision (in_scope self repos n).
Proof. unfold in_scope. apply _. Defined.

(** What a selective run must leave absent: the manifest, the gists, and
    the directory of every repository out of scope. *)
Definition out_of_scope (self : SelectiveBackupProgressScreen.screen)
    (repos : list repository) (root : path) (q : path) : Prop :=
  q = root ++ ["backup_summary.json"] ∨
  q = root ++ ["gists"; "gists.json"] ∨
  ∃ n, q = root ++ ["repositories"; n] ∧ ¬ in_scope self repos n.

End BackupSpec.

(** * Vocabulary of the properties of the settings store *)

Module SettingsSpec.
Import SettingsManager.

(** Two rows with the same columns but for [value]. *)
Definition same_columns (r1 r2 : setting) : Prop :=
  encrypted r1 = encrypted r2 ∧
  description r1 = description r2 ∧
  created_at r1 = created_at r2 ∧
  updated_at r1 = updated_at r2.

(** Two stores with the same keys, whose rows differ in [value] at most. *)
Definition differ_only_in_values (db1 db2 : database) : Prop :=
  ∀ k, match settings_table db1 !! k, settings_table db2 !! k with
       | Some r1, Some r2 => same_columns r1 r2
       | None, None => True
       | _, _ => False
       end.


End SettingsSpec.

(** * Properties of the settings store *)

Module SettingsFacts.
Import SettingsManager SettingsSpec.

(** ** The byte order of keys is a total order *)

Lemma compare_refl (s : string) : String.compare s s = Eq.
Proof.
  induction s as [|c s IH]; simpl; [done|].
  unfold Ascii.compare. by rewrite N.compare_refl.
Qed.

Lemma compare_lt_trans (s1 s2 s3 : string) :
  String.compare s1 s2 = Lt → String.compare s2 s3 = Lt →
  String.compare s1 s3 = Lt.
Proof.
  revert s2 s3. induction s1 as [|c1 s1 IH]; intros [|c2 s2] [|c3 s3];
    simpl; try done.
  unfold Ascii.compare.
  destruct (N.compare_spec (N_of_ascii c1) (N_of_ascii c2)) as [E12|L12|G12];
    try done;
    destruct (N.compare_spec (N_of_ascii c2) (N_of_ascii c3)) as [E23|L23|G23];
    try done; intros H12 H23.
  - rewrite E12, E23, N.compare_refl. eauto.
  - by rewrite E12, (proj2 (N.compare_lt_iff _ _) L23).
  - by rewrite <- E23, (proj2 (N.compare_lt_iff _ _) L12).
  - assert (N_of_ascii c1 < N_of_ascii c3)%N as L13 by lia.
    by rewrite (proj2 (N.compare_lt_iff _ _) L13).
Qed.

Lemma leb_trans (s1 s2 s3 : string) :
  String.leb s1 s2 = true → String.leb s2 s3 = true → String.leb s1 s3 = true.
Proof.
  unfold String.leb.
  destruct (String.compare s1 s2) eqn:E12; try done;
    destruct (String.compare s2 s3) eqn:E23; try done; intros _ _.
  - apply String.compare_eq_iff in E12, E23. subst. by rewrite compare_refl.
  - apply String.compare_eq_iff in E12. subst. by rewrite E23.
  - apply String.compare_eq_iff in E23. subst. by rewrite E12.
  - by rewrite (compare_lt_trans _ _ _ E12 E23).
Qed.

#[local] Instance key_le_total {A : Type} : Total (@key_le A).
Proof. intros x y. apply String.leb_total. Qed.

#[local] Instance key_le_trans {A : Type} : Transitive (@key_le A).
Proof. intros x y z. apply leb_trans. Qed.

(** ** [set] and [get] *)

Section WithLibraries.
Context {json : Json} {fernet : Fernet}.

Lemma lookup_insert_setting now key text enc descr db :
  settings_table (insert_setting now key text enc descr db) !! key =
  Some {| value := text;
          encrypted := enc;
          description := descr;
          created_at := now;
          updated_at := now |}.
Proof. unfold insert_setting. simpl. by rewrite lookup_insert_eq. Qed.




(** ** Profiles *)

Lemma at_most_one_active_init : at_most_one_active _init_database.
Proof. intros n1 n2 r1 r2 H1. simpl in H1. by rewrite lookup_empty in H1. Qed.

Lemma at_most_one_active_set now rnd key v enc descr db :
  at_most_one_active db →
  at_most_one_active (store_after db (set now rnd key v enc descr db)).
Proof. unfold set. by destruct (str_value_of v). Qed.

Lemma at_most_one_active_delete key db :
  at_most_one_active db → at_most_one_active (delete key db).2.
Proof. done. Qed.

Lemma at_most_one_active_insert_profile now name text db :
  at_most_one_active db →
  at_most_one_active (insert_profile now name text db).
Proof.
  intros Hinv n1 n2 r1 r2. unfold insert_profile. simpl.
  rewrite !lookup_insert. repeat case_decide; intros; simplify_eq/=; eauto.
Qed.

Lemma at_most_one_active_create_profile now name d db :
  at_most_one_active db →
  at_most_one_active (store_after db (create_profile now name d db)).
Proof.
  intros Hinv. unfold create_profile.
  destruct (json_dumps d); simpl; [|done].
  by apply at_most_one_active_insert_profile.
Qed.

Lemma lookup_set_active_profile name db n :
  profiles_table (set_active_profile name db) !! n =
  with_active (bool_decide (n = name)) <$> profiles_table db !! n.
Proof.
  unfold set_active_profile. simpl. rewrite lookup_alter.
  case_decide as Hn.
  - subst. rewrite bool_decide_eq_true_2 by done. rewrite lookup_fmap.
    by destruct (profiles_table db !! n).
  - rewrite bool_decide_eq_false_2 by congruence. by rewrite lookup_fmap.
Qed.

Lemma active_set_active_profile name db n r :
  profiles_table (set_active_profile name db) !! n = Some r →
  active r = true ↔ n = name.
Proof.
  rewrite lookup_set_active_profile.
  destruct (profiles_table db !! n) as [r0|]; [|done].
  intros [= <-]. simpl. by rewrite bool_decide_eq_true.
Qed.

Lemma at_most_one_active_set_active_profile name db :
  at_most_one_active (set_active_profile name db).
Proof.
  intros n1 n2 r1 r2 H1 H2 A1 A2.
  apply (active_set_active_profile _ _ _ _ H1) in A1.
  apply (active_set_active_profile _ _ _ _ H2) in A2. congruence.
Qed.

Lemma at_most_one_active_run_call db c :
  at_most_one_active db → at_most_one_active (run_call db c).
Proof.
  destruct c; simpl;
    auto using at_most_one_active_set, at_most_one_active_delete,
      at_most_one_active_create_profile,
      at_most_one_active_set_active_profile.
Qed.

Lemma at_most_one_active_foldl cs db :
  at_most_one_active db → at_most_one_active (foldl run_call db cs).
Proof.
  revert db. induction cs as [|c cs IH]; intros db Hinv; simpl; [done|].
  by apply IH, at_most_one_active_run_call.
Qed.

(** [get_active_profile] finds a name exactly when a stored row is active. *)
Lemma get_active_profile_Some db n :
  get_active_profile db = Some n →
  ∃ r, profiles_table db !! n = Some r ∧ active r = true.
Proof.
  unfold get_active_profile.
  destruct (filter _ _) as [|[k r] l] eqn:E; [done|]. simpl. intros [= <-].
  assert (Hin : (k, r) ∈ filter (λ kr : string * profile, active kr.2 = true)
                  (map_to_list (profiles_table db))) by (rewrite E; left).
  apply list_elem_of_filter in Hin as [Hact Hin].
  apply elem_of_map_to_list in Hin. eauto.
Qed.

Lemma get_active_profile_None db :
  get_active_profile db = None ↔
  ∀ n r, profiles_table db !! n = Some r → active r = false.
Proof.
  unfold get_active_profile. split.
  - intros Hnone n r Hn. destruct (active r) eqn:Hact; [|done].
    assert (Hin : (n, r) ∈ filter (λ kr : string * profile, active kr.2 = true)
                    (map_to_list (profiles_table db))).
    { apply list_elem_of_filter. split; [done|]. by apply elem_of_map_to_list. }
    destruct (filter _ _); [by apply elem_of_nil in Hin | done].
  - intros Hall. destruct (filter _ _) as [|[k r] l] eqn:E; [done|].
    assert (Hin : (k, r) ∈ filter (λ kr : string * profile, active kr.2 = true)
                    (map_to_list (profiles_table db))) by (rewrite E; left).
    apply list_elem_of_filter in Hin as [Hact Hin].
    apply elem_of_map_to_list in Hin. apply Hall in Hin. simpl in Hact.
    congruence.
Qed.

Lemma get_active_profile_set_active_profile name db :
  is_Some (profiles_table db !! name) →
  get_active_profile (set_active_profile name db) = Some name.
Proof.
  intros [r0 Hr0].
  destruct (get_active_profile (set_active_profile name db)) as [n|] eqn:E.
  - apply get_active_profile_Some in E as (r & Hr & Hact).
    apply (active_set_active_profile _ _ _ _ Hr) in Hact. by subst.
  - rewrite get_active_profile_None in E.
    specialize (E name (with_active true r0)).
    rewrite lookup_set_active_profile, Hr0 in E. simpl in E.
    rewrite bool_decide_eq_true_2 in E by done. by specialize (E eq_refl).
Qed.

(** ** [list_settings] *)

Lemma elem_of_list_settings db k i :
  (k, i) ∈ list_settings db ↔
  ∃ row, settings_table db !! k = Some row ∧ i = select_info row.
Proof.
  unfold list_settings. rewrite merge_sort_Permutation.
  rewrite elem_of_map_to_list, lookup_fmap.
  destruct (settings_table db !! k) as [row|]; simpl; split.
  - intros [= <-]. eauto.
  - intros (row' & [= <-] & ->). done.
  - done.
  - by intros (? & ? & _).
Qed.

Lemma NoDup_list_settings_keys db : NoDup (list_settings db).*1.
Proof.
  unfold list_settings. rewrite merge_sort_Permutation.
  apply NoDup_fst_map_to_list.
Qed.

Lemma StronglySorted_list_settings db :
  StronglySorted key_le (list_settings db).
Proof. unfold list_settings. apply StronglySorted_merge_sort; apply _. Qed.

(** The listing of a row has the four columns of the row that are not its
    value. *)
Lemma select_info_columns (row : setting) (i : setting_info) :
  i = select_info row ↔
  info_encrypted i = encrypted row ∧
  info_description i = description row ∧
  info_created_at i = created_at row ∧
  info_updated_at i = updated_at row.
Proof.
  split.
  - by intros ->.
  - destruct i. simpl. intros (-> & -> & -> & ->). done.
Qed.

(** Stores that differ in values only have the same listing. *)
Lemma list_settings_differ_only_in_values db1 db2 :
  differ_only_in_values db1 db2 → list_settings db1 = list_settings db2.
Proof.
  intros Hsame. unfold list_settings. f_equal. f_equal.
  apply map_eq. intros k. rewrite !lookup_fmap. specialize (Hsame k).
  destruct (settings_table db1 !! k) as [r1|],
           (settings_table db2 !! k) as [r2|]; try done.
  simpl. f_equal. destruct Hsame as (H1 & H2 & H3 & H4).
  unfold select_info. by rewrite H1, H2, H3, H4.
Qed.

(** Two rows stored under one key at one time, with one flag and one
    description, leave stores that differ in values only. *)
Lemma insert_setting_differ_only_in_values now key text1 text2 enc descr db :
  differ_only_in_values (insert_setting now key text1 enc descr db)
                        (insert_setting now key text2 enc descr db).
Proof.
  intros k. unfold insert_setting. simpl. rewrite !lookup_insert.
  case_decide; [done|].
  destruct (settings_table db !! k); done.
Qed.

(** After [set], the row's [created_at] and [updated_at] are both the
    time of the call, whatever the store held before. *)
Lemma set_timestamps now rnd key v enc descr db db' :
  set now rnd key v enc descr db = Ok db' →
  created_at <$> settings_table db' !! key = Some now ∧
  updated_at <$> settings_table db' !! key = Some now.
Proof.
  unfold set. destruct (str_value_of v) as [text|e]; [|done].
  intros [= <-]. by rewrite lookup_insert_setting.
Qed.

(** ** The claims about the settings store *)



(** C4: every store reached from a fresh database has at most one active
    profile; and [set_active_profile B], on any store that has a profile
    [B], leaves [B] active and no other profile, whichever profile was
    active before. *)
Theorem set_active_profile_exclusive (cs : list call) (db : database)
    (B : string) :
  at_most_one_active (run_calls cs) ∧
  (is_Some (profiles_table db !! B) →
   (∃ r, profiles_table (set_active_profile B db) !! B = Some r ∧
         active r = true) ∧
   (∀ n r, profiles_table (set_active_profile B db) !! n = Some r →
           active r = true ↔ n = B) ∧
   get_active_profile (set_active_profile B db) = Some B ∧
   at_most_one_active (set_active_profile B db)).
Proof.
  split.
  - apply at_most_one_active_foldl, at_most_one_active_init.
  - intros HB. split_and!.
    + destruct HB as [r0 Hr0]. exists (with_active true r0).
      rewrite lookup_set_active_profile, Hr0. simpl.
      by rewrite bool_decide_eq_true_2.
    + apply active_set_active_profile.
    + by apply get_active_profile_set_active_profile.
    + apply at_most_one_active_set_active_profile.
Qed.

(** C8: [list_settings] lists every stored key once, in key order, and
    for each key exactly the columns [encrypted], [description],
    [created_at] and [updated_at] of its row. The listing does not depend
    on the values: two stores that have the same keys and differ in the
    values of their rows at most have the same listing, and so have the
    stores two calls of [set] leave that differ in the value given. *)
Theorem list_settings_hides_values (db1 db2 : database) :
  StronglySorted key_le (list_settings db1) ∧
  NoDup (list_settings db1).*1 ∧
  (∀ k i, (k, i) ∈ list_settings db1 ↔
          ∃ row, settings_table db1 !! k = Some row ∧
                 info_encrypted i = encrypted row ∧
                 info_description i = description row ∧
                 info_created_at i = created_at row ∧
                 info_updated_at i = updated_at row) ∧
  (differ_only_in_values db1 db2 → list_settings db1 = list_settings db2) ∧
  (∀ now rnd rnd' key v v' enc descr db,
     set now rnd key v enc descr db = Ok db1 →
     set now rnd' key v' enc descr db = Ok db2 →
     list_settings db1 = list_settings db2).
Proof.
  split_and!.
  - apply StronglySorted_list_settings.
  - apply NoDup_list_settings_keys.
  - intros k i. rewrite elem_of_list_settings.
    split; intros (row & Hrow & Hi); exists row; (split; [done|]);
      by apply select_info_columns.
  - apply list_settings_differ_only_in_values.
  - intros now rnd rnd' key v v' enc descr db. unfold set.
    destruct (str_value_of v) as [text|]; [|done].
    destruct (str_value_of v') as [text'|]; [|done].
    intros [= <-] [= <-].
    apply list_settings_differ_only_in_values,
      insert_setting_differ_only_in_values.
Qed.

(** C9: when [n] is the active profile of a store with at most one active
    profile, [create_profile(n, ...)], once [json.dumps] has returned the
    text of the settings, stores the row of [n] with [active] false:
    afterwards no profile is active, [get_active_profile] returns [None],
    and the store still has at most one active profile. When [json.dumps]
    raises, so does [create_profile]. *)
Theorem create_profile_drops_active now n d db :
  at_most_one_active db →
  get_active_profile db = Some n →
  (∀ text, json_dumps d = Ok text →
     ∃ db',
       create_profile now n d db = Ok db' ∧
       (∃ r, profiles_table db' !! n = Some r ∧ active r = false) ∧
       (∀ n' r, profiles_table db' !! n' = Some r → active r = false) ∧
       get_active_profile db' = None ∧
       at_most_one_active db') ∧
  (∀ e, json_dumps d = Raise e → create_profile now n d db = Raise e).
Proof.
  intros Hinv Hn. split.
  - intros text Hdumps. unfold create_profile. rewrite Hdumps.
    eexists. split; [done|].
    apply get_active_profile_Some in Hn as (rn & Hrn & Hact).
    assert (Hall : ∀ n' r,
              profiles_table (insert_profile now n text db) !! n' = Some r →
              active r = false).
    { intros n' r. unfold insert_profile. simpl. rewrite lookup_insert.
      case_decide as Hnn; [by intros [= <-]|].
      intros Hr. destruct (active r) eqn:Hr_act; [|done].
      destruct Hnn. symmetry. by apply (Hinv n' n r rn). }
    split_and!; [|done| |].
    + eexists. unfold insert_profile. simpl. by rewrite lookup_insert_eq.
    + by apply get_active_profile_None.
    + by apply at_most_one_active_insert_profile.
  - intros e Hdumps. unfold create_profile. by rewrite Hdumps.
Qed.

End WithLibraries.

(** ** The claims on examples *)

#[local] Existing Instance SimpleJson.simple_json.
#[local] Existing Instance ToyFernet.toy_fernet.





(** C3 fails on the code: a key stored on 1 January and overwritten on
    30 June has, afterwards, 30 June as its [created_at]. *)
Lemma set_overwrite_resets_created_at :
  ∃ db1 db2,
    set "2024-01-01 00:00:00" "" "backup_directory" (PStr "./backups")
        false None _init_database = Ok db1 ∧
    set "2024-06-30 12:00:00" "" "backup_directory" (PStr "/srv/backups")
        false None db1 = Ok db2 ∧
    created_at <$> settings_table db1 !! "backup_directory"
      = Some "2024-01-01 00:00:00" ∧
    created_at <$> settings_table db2 !! "backup_directory"
      = Some "2024-06-30 12:00:00" ∧
    updated_at <$> settings_table db2 !! "backup_directory"
      = Some "2024-06-30 12:00:00".
Proof.
  eexists. eexists. split; [reflexivity|]. split; [reflexivity|].
  split_and!.
  - exact (proj1 (set_timestamps "2024-01-01 00:00:00" "" "backup_directory"
                    (PStr "./backups") false None _init_database _ eq_refl)).
  - exact (proj1 (set_timestamps "2024-06-30 12:00:00" "" "backup_directory"
                    (PStr "/srv/backups") false None _ _ eq_refl)).
  - exact (proj2 (set_timestamps "2024-06-30 12:00:00" "" "backup_directory"
                    (PStr "/srv/backups") false None _ _ eq_refl)).
Qed.

Lemma set_active_profile_exclusive_witness :
  let db := run_calls [CallCreateProfile "2024-01-01 00:00:00" "A" (PDict []);
                       CallCreateProfile "2024-01-02 00:00:00" "B" (PDict []);
                       CallSetActiveProfile "A"] in
  get_active_profile db = Some "A" ∧
  get_active_profile (set_active_profile "B" db) = Some "B" ∧
  ∀ n r, profiles_table (set_active_profile "B" db) !! n = Some r →
         active r = true ↔ n = "B".
Proof.
  intros db.
  assert (HB : is_Some (profiles_table db !! "B")) by (vm_compute; eauto).
  pose proof (proj2 (set_active_profile_exclusive [] db "B") HB)
    as (_ & Honly & Hget & _).
  split_and!; [by vm_compute | exact Hget | exact Honly].
Defined.

Lemma list_settings_hides_values_witness :
  ∃ db1 db2,
    set "2024-01-01 00:00:00" "iv" "github_token" (PStr "ghp_first") true
        None _init_database = Ok db1 ∧
    set "2024-01-01 00:00:00" "iv" "github_token" (PStr "ghp_second") true
        None _init_database = Ok db2 ∧
    settings_table db1 ≠ settings_table db2 ∧
    list_settings db1 = list_settings db2.
Proof.
  eexists. eexists. split; [reflexivity|]. split; [reflexivity|]. split.
  - intros Heq.
    match type of Heq with settings_table ?a = settings_table ?b =>
      assert (Hv : value <$> settings_table a !! "github_token" =
                   value <$> settings_table b !! "github_token")
        by (by rewrite Heq) end.
    vm_compute in Hv. discriminate.
  - match goal with |- list_settings ?a = list_settings ?b =>
      apply (proj1 (proj2 (proj2 (proj2 (list_settings_hides_values a b)))))
    end.
    apply insert_setting_differ_only_in_values.
Defined.

Lemma create_profile_drops_active_witness :
  let db := run_calls [CallCreateProfile "2024-01-01 00:00:00" "work"
                         (PDict [("parallel_workers", PInt 4)]);
                       CallSetActiveProfile "work"] in
  get_active_profile db = Some "work" ∧
  ∃ db',
    create_profile "2024-02-01 00:00:00" "work"
      (PDict [("parallel_workers", PInt 8)]) db = Ok db' ∧
    get_active_profile db' = None.
Proof.
  intros db.
  assert (Hactive : get_active_profile db = Some "work") by (by vm_compute).
  split; [exact Hactive|].
  assert (Hdumps : ∃ text,
            json_dumps (PDict [("parallel_workers", PInt 8)]) = Ok text)
    by (vm_compute; eauto).
  destruct Hdumps as [text Hdumps].
  destruct (proj1 (create_profile_drops_active "2024-02-01 00:00:00" "work"
                     (PDict [("parallel_workers", PInt 8)]) db
                     (at_most_one_active_foldl _ _ at_most_one_active_init)
                     Hactive) text Hdumps)
    as (db' & Hcreate & _ & _ & Hnone & _).
  exists db'. split; [exact Hcreate | exact Hnone].
Defined.

End SettingsFacts.

(** * Properties of the backup runs *)

Module BackupFacts.
Import GitHubBackup BackupSpec.

(** ** Rules for [returns] *)

Section Rules.
Context {A B : Type}.

Lemma returns_ret (P : state → Prop) (a : A) (Q : A → state → Prop) :
  (∀ st, P st → Q a st) → returns P (mret a) Q.
Proof. intros H st HP. exists a, st. eauto. Qed.

Lemma returns_ret_eq (P : state → Prop) (a : A) :
  returns P (mret a) (λ a' st, a' = a ∧ P st).
Proof. by apply returns_ret. Qed.

Lemma returns_ret_keep (P : state → Prop) (a : A) :
  returns P (mret a) (λ _, P).
Proof. by apply returns_ret. Qed.

Lemma returns_bind (P : state → Prop) (m : M A) (Q : A → state → Prop)
    (f : A → M B) (R : B → state → Prop) :
  returns P m Q → (∀ a, returns (Q a) (f a) R) → returns P (m ≫= f) R.
Proof.
  intros Hm Hf st HP. destruct (Hm st HP) as (a & st1 & Em & HQ).
  destruct (Hf a st1 HQ) as (b & st2 & Ef & HR). exists b, st2.
  split; [|done]. unfold mbind, M_bind. by rewrite Em.
Qed.

Lemma returns_ext (P : state → Prop) (m m' : M A) (Q : A → state → Prop) :
  (∀ st, m st = m' st) → returns P m' Q → returns P m Q.
Proof. intros Heq Hm st HP. rewrite Heq. by apply Hm. Qed.

Lemma returns_conseq (P P' : state → Prop) (m : M A)
    (Q Q' : A → state → Prop) :
  returns P m Q → (∀ st, P' st → P st) → (∀ a st, Q a st → Q' a st) →
  returns P' m Q'.
Proof.
  intros Hm HP HQ st HP'. destruct (Hm st (HP st HP')) as (a & st1 & Em & H1).
  exists a, st1. eauto.
Qed.

Lemma returns_assume (φ : Prop) (P : state → Prop) (m : M A)
    (Q : A → state → Prop) :
  (φ → returns P m Q) → returns (λ st, φ ∧ P st) m Q.
Proof. intros Hm st [Hφ HP]. by apply Hm. Qed.

Lemma returns_call (P : state → Prop) (r : result A) (a : A) :
  r = Ok a → returns P (call r) (λ a' st, a' = a ∧ P st).
Proof. intros -> st HP. by exists a, st. Qed.

Lemma returns_try (P : state → Prop) (body : M A)
    (handler : exn → option (M A)) (Q : A → state → Prop) :
  returns P body Q → returns P (try_except body handler) Q.
Proof.
  intros Hm st HP. destruct (Hm st HP) as (a & st1 & Em & HQ).
  exists a, st1. split; [|done]. unfold try_except. by rewrite Em.
Qed.

(** A [try] whose body raises at once, in a remote call. *)
Lemma returns_try_raise (P : state → Prop) (e : exn) (k : B → M A)
    (handler : exn → option (M A)) (h : M A) (Q : A → state → Prop) :
  handler e = Some h → returns P h Q →
  returns P (try_except (call (Raise e) ≫= k) handler) Q.
Proof.
  intros Hh Hm st HP. destruct (Hm st HP) as (a & st1 & Em & HQ).
  exists a, st1. split; [|done].
  unfold try_except, mbind, M_bind, call. by rewrite Hh.
Qed.

Lemma raises_call (P : state → Prop) (e : exn) :
  raises P (call (A:=A) (Raise e)) e P.
Proof. intros st HP. by exists st. Qed.

Lemma raises_bind_l (P : state → Prop) (m : M A) (e : exn)
    (f : A → M B) (Q : state → Prop) :
  raises P m e Q → raises P (m ≫= f) e Q.
Proof.
  intros Hm st HP. destruct (Hm st HP) as (st1 & Em & HQ). exists st1.
  split; [|done]. unfold mbind, M_bind. by rewrite Em.
Qed.

Lemma raises_bind_r (P : state → Prop) (m : M A) (Q : A → state → Prop)
    (e : exn) (f : A → M B) (R : state → Prop) :
  returns P m Q → (∀ a, raises (Q a) (f a) e R) → raises P (m ≫= f) e R.
Proof.
  intros Hm Hf st HP. destruct (Hm st HP) as (a & st1 & Em & HQ).
  destruct (Hf a st1 HQ) as (st2 & Ef & HR). exists st2.
  split; [|done]. unfold mbind, M_bind. by rewrite Em.
Qed.

Lemma returns_try_handled (P : state → Prop) (body : M A) (e : exn)
    (P1 : state → Prop) (handler : exn → option (M A)) (h : M A)
    (Q : A → state → Prop) :
  raises P body e P1 → handler e = Some h → returns P1 h Q →
  returns P (try_except body handler) Q.
Proof.
  intros Hbody Hh Hm st HP. destruct (Hbody st HP) as (st1 & Eb & H1).
  destruct (Hm st1 H1) as (a & st2 & Eh & HQ). exists a, st2.
  split; [|done]. unfold try_except. by rewrite Eb, Hh.
Qed.

End Rules.

Lemma returns_modify (P : state → Prop) (f : state → state)
    (Q : unit → state → Prop) :
  (∀ st, P st → Q tt (f st)) → returns P (modify f) Q.
Proof. intros H st HP. exists tt, (f st). eauto. Qed.

(** Run the next statement with one of the rules above. *)
Ltac step rule := eapply returns_bind; [rule | intros ?; simpl].

(** ** The primitives keep a state consistent *)

Section Consistent.
Context (root : path) (L : string * string → Prop) (U D : path → Prop).

Lemma returns_logger level msg :
  returns (consistent root L U D) (logger level msg)
          (λ _, consistent root L U D).
Proof.
  apply returns_modify. intros st [H1 H2 H3 H4 H5].
  split; simpl; try done. intros x Hx. apply elem_of_app. eauto.
Qed.

Lemma returns_logger_line level msg :
  returns (consistent root L U D) (logger level msg)
          (λ _, consistent root (λ x, L x ∨ x = (level, msg)) U D).
Proof.
  apply returns_modify. intros st [H1 H2 H3 H4 H5].
  split; simpl; try done. intros x [Hx | ->]; apply elem_of_app.
  - eauto.
  - right. by apply list_elem_of_singleton.
Qed.

Lemma returns_log_write line :
  returns (consistent root L U D)
          (SelectiveBackupProgressScreen.log_write line)
          (λ _, consistent root L U D).
Proof. apply returns_modify. by intros st [H1 H2 H3 H4 H5]. Qed.

Lemma returns_get_backup_root :
  returns (consistent root L U D) get_backup_root
          (λ a st, a = root ∧ consistent root L U D st).
Proof.
  intros st Hst. exists root, st. split; [|done].
  unfold get_backup_root. by rewrite (cons_root _ _ _ _ _ Hst).
Qed.

Lemma parent_snoc (q : path) (c : string) : parent (q ++ [c]) = q.
Proof. apply removelast_last. Qed.

Lemma parent_is_dir_snoc (q : path) (c : string) (st : state) :
  q = [] ∨ fs st !! q = Some Dir → parent_is_dir (q ++ [c]) st = true.
Proof.
  unfold parent_is_dir. rewrite parent_snoc.
  intros [-> | Hq]; [done|]. destruct q; [done|]. by rewrite Hq.
Qed.

(** Writing a node where the layout wants one of its kind. *)
Lemma consistent_insert (st : state) (p : path) (n : node) :
  consistent root L U D st →
  layout p = Some (is_dir n) →
  ¬ U (root ++ p) →
  consistent root L U (λ x, D x ∨ (x = root ++ p ∧ n = Dir))
             (with_fs (insert (root ++ p) n) st).
Proof.
  intros [H1 H2 H3 H4 H5] Hlay HU. split; simpl; try done.
  - intros p' n'. rewrite lookup_insert. case_decide as Hp.
    + apply app_inv_head in Hp. subst. by intros [= <-].
    + apply H2.
  - intros q Hq. rewrite lookup_insert_ne; [by apply H4|].
    by intros <-.
  - intros q [Hq | [-> ->]]; [|by rewrite lookup_insert_eq].
    rewrite lookup_insert. case_decide as Hp; [|by apply H5].
    subst. apply H5 in Hq. apply H2 in Hq. simpl in Hq.
    rewrite Hq in Hlay. by destruct n.
Qed.

Lemma returns_mkdir (q q0 p : path) (c : string) :
  q = root ++ p → q = q0 ++ [c] →
  layout p = Some true → ¬ U q → q0 = [] ∨ D q0 →
  returns (consistent root L U D) (mkdir q)
          (λ _, consistent root L U (λ x, D x ∨ x = q)).
Proof.
  intros Hq Hq0 Hlay HU Hpar st Hst. exists tt. eexists. split.
  - unfold mkdir. rewrite Hq0 at 1. rewrite parent_is_dir_snoc.
    2:{ destruct Hpar as [-> | Hd]; [by left|].
        right. by apply (cons_dirs _ _ _ _ _ Hst). }
    destruct (fs st !! q) as [[|doc]|] eqn:E; try done.
    rewrite Hq in E. apply (cons_layout _ _ _ _ _ Hst) in E.
    simpl in E. congruence.
  - subst q. destruct (consistent_insert st p Dir Hst Hlay HU)
      as [H1 H2 H3 H4 H5].
    split; try done. intros x [Hx | ->]; apply H5; eauto.
Qed.

Lemma returns_write_json (q q0 p : path) (c : string) (doc : pyval) :
  q = root ++ p → q = q0 ++ [c] →
  layout p = Some false → ¬ U q → q0 = [] ∨ D q0 →
  returns (consistent root L U D) (write_json q doc)
          (λ _ st, consistent root L U D st ∧
                   fs st !! q = Some (File doc)).
Proof.
  intros Hq Hq0 Hlay HU Hpar st Hst. exists tt. eexists. split.
  - unfold write_json. rewrite Hq0 at 1. rewrite parent_is_dir_snoc.
    2:{ destruct Hpar as [-> | Hd]; [by left|].
        right. by apply (cons_dirs _ _ _ _ _ Hst). }
    destruct (fs st !! q) as [[|doc']|] eqn:E; try done.
    rewrite Hq in E. apply (cons_layout _ _ _ _ _ Hst) in E.
    simpl in E. congruence.
  - subst q. destruct (consistent_insert st p (File doc) Hst Hlay HU)
      as [H1 H2 H3 H4 H5].
    split; [|by simpl; rewrite lookup_insert_eq].
    split; try done. intros x Hx. apply H5. eauto.
Qed.

Lemma returns_write_json_keep (q q0 p : path) (c : string) (doc : pyval) :
  q = root ++ p → q = q0 ++ [c] →
  layout p = Some false → ¬ U q → q0 = [] ∨ D q0 →
  returns (consistent root L U D) (write_json q doc)
          (λ _, consistent root L U D).
Proof.
  intros. eapply returns_conseq;
    [by eapply (returns_write_json q q0 p c) | done | by intros ? ? [? _]].
Qed.

(** ** The methods keep a state consistent *)

Lemma returns_clone_repository self repo (q p : path) :
  q = root ++ p → layout p = Some true → ¬ U q →
  returns (consistent root L U D) (clone_repository self repo q)
          (λ b st, b = is_ok (clone_from repo) ∧ consistent root L U D st).
Proof.
  intros Hq Hlay HU. unfold clone_repository, Repo_clone_from.
  destruct (clone_from repo) as [[]|e] eqn:Hclone.
  - apply returns_try.
    step ltac:(apply returns_logger). step ltac:(apply returns_logger).
    eapply returns_bind.
    { step ltac:(by apply returns_call).
      apply returns_modify. intros st [_ Hst]. subst q.
      destruct (consistent_insert st p Dir Hst Hlay HU)
        as [H1 H2 H3 H4 H5].
      instantiate (1 := λ _, consistent root L U D).
      split; try done. intros x Hx. apply H5. eauto. }
    intros ?. step ltac:(apply returns_logger).
    by apply returns_ret.
  - destruct e;
      (eapply (returns_try_handled _ _ _ (consistent root L U D));
       [ eapply raises_bind_r; [apply returns_logger|]; intros ?;
         eapply raises_bind_r; [apply returns_logger|]; intros ?;
         apply raises_bind_l, raises_bind_l, raises_call
       | reflexivity
       | repeat (step ltac:(apply returns_logger)); by apply returns_ret ]).
Qed.

Lemma returns_soft_fetch {X : Type} (r : result X) (q q0 p : path)
    (c : string) (to_doc : X → pyval) (msg : exn → string) :
  soft r = true →
  q = root ++ p → q = q0 ++ [c] →
  layout p = Some false → ¬ U q → D q0 →
  returns (consistent root L U D)
    (try_except
       (x ← call r; write_json q (to_doc x))
       (λ e, match e with
             | GithubException _ => Some (logger_warning (msg e))
             | _ => None
             end))
    (λ _, consistent root L U D).
Proof.
  intros Hsoft Hq Hq0 Hlay HU HD. destruct r as [x|e].
  - apply returns_try. step ltac:(by apply returns_call).
    apply returns_assume. intros ->.
    by eapply (returns_write_json_keep q q0 p c); eauto.
  - destruct e; try done.
    eapply returns_try_raise; [done|]. apply returns_logger.
Qed.

Lemma returns_backup_repository_metadata self repo (n : string) :
  healthy_repo repo = true →
  D (root ++ ["repositories"; n]) →
  (∀ rest, ¬ U (root ++ "repositories" :: n :: rest)) →
  returns (consistent root L U D)
    (backup_repository_metadata self repo (root ++ ["repositories"; n]))
    (λ _, consistent root L U D).
Proof.
  intros Hh HD HU. unfold healthy_repo in Hh.
  apply andb_true_iff in Hh as [Hh Hrel].
  apply andb_true_iff in Hh as [Htop Hiss].
  unfold backup_repository_metadata.
  destruct (get_topics repo) as [topics|] eqn:Et; [|done].
  step ltac:(by apply returns_call).
  apply returns_assume. intros ->.
  eapply returns_bind.
  { eapply (returns_write_json_keep _ (root ++ ["repositories"; n])
              ["repositories"; n; "metadata.json"] "metadata.json");
      eauto; rewrite <- app_assoc; simpl; by eauto. }
  intros ?. eapply returns_bind.
  { apply (returns_soft_fetch _ _ (root ++ ["repositories"; n])
             ["repositories"; n; "issues.json"] "issues.json" PList);
      eauto; rewrite <- app_assoc; simpl; by eauto. }
  intros ?.
  apply (returns_soft_fetch _ _ (root ++ ["repositories"; n])
           ["repositories"; n; "releases.json"] "releases.json" PList);
    eauto; rewrite <- app_assoc; simpl; by eauto.
Qed.

End Consistent.

(** ** The loops over the repositories *)

Section Loops.
Context (root : path) (L : string * string → Prop) (U : path → Prop).

Lemma consistent_dirs_weaken (D D' : path → Prop) st :
  (∀ x, D' x → D x) → consistent root L U D st → consistent root L U D' st.
Proof. intros HD [H1 H2 H3 H4 H5]. split; eauto. Qed.

Lemma backup_repositories_body_spec self :
  body_spec root L U (backup_repositories_body self).
Proof.
  intros D counters repo Hh HD HU. unfold backup_repositories_body.
  step ltac:(apply returns_logger).
  step ltac:(apply returns_get_backup_root).
  apply returns_assume. intros ->.
  step ltac:(eapply (returns_mkdir root L U D _ (root ++ ["repositories"])
                       ["repositories"; name repo] (name repo));
             eauto; rewrite <- ?app_assoc; simpl; by eauto).
  step ltac:(eapply (returns_clone_repository root L U _ self repo _
                       ["repositories"; name repo; "git"]);
             eauto; rewrite <- ?app_assoc; simpl; by eauto).
  apply returns_assume. intros ->. unfold count_clone.
  destruct (is_ok (clone_from repo)).
  - step ltac:(step ltac:(apply returns_logger); apply returns_ret_eq).
    apply returns_assume. intros ->.
    step ltac:(apply returns_logger).
    step ltac:(apply returns_backup_repository_metadata; eauto).
    by apply returns_ret.
  - step ltac:(step ltac:(apply returns_logger); apply returns_ret_eq).
    apply returns_assume. intros ->.
    step ltac:(apply returns_logger).
    step ltac:(apply returns_backup_repository_metadata; eauto).
    by apply returns_ret.
Qed.

Lemma _backup_selected_repositories_body_spec self :
  body_spec root L U
    (SelectiveBackupProgressScreen._backup_selected_repositories_body self).
Proof.
  intros D counters repo Hh HD HU.
  unfold SelectiveBackupProgressScreen._backup_selected_repositories_body.
  step ltac:(apply returns_log_write).
  step ltac:(apply returns_get_backup_root).
  apply returns_assume. intros ->.
  step ltac:(eapply (returns_mkdir root L U D _ (root ++ ["repositories"])
                       ["repositories"; name repo] (name repo));
             eauto; rewrite <- ?app_assoc; simpl; by eauto).
  step ltac:(eapply (returns_clone_repository root L U _ _ repo _
                       ["repositories"; name repo; "git"]);
             eauto; rewrite <- ?app_assoc; simpl; by eauto).
  apply returns_assume. intros ->. unfold count_clone.
  destruct (is_ok (clone_from repo)).
  - step ltac:(step ltac:(apply returns_log_write); apply returns_ret_eq).
    apply returns_assume. intros ->.
    step ltac:(apply returns_log_write).
    step ltac:(apply returns_backup_repository_metadata; eauto).
    by apply returns_ret.
  - step ltac:(step ltac:(apply returns_log_write); apply returns_ret_eq).
    apply returns_assume. intros ->.
    step ltac:(apply returns_log_write).
    step ltac:(apply returns_backup_repository_metadata; eauto).
    by apply returns_ret.
Qed.

Lemma returns_for_each body (l : list repository) :
  body_spec root L U body →
  ∀ (D : path → Prop) counters,
    forallb healthy_repo l = true →
    D (root ++ ["repositories"]) →
    (∀ r rest, r ∈ l → ¬ U (root ++ "repositories" :: name r :: rest)) →
    returns (consistent root L U D) (for_each body counters l)
      (λ c st, c = foldl count_clone counters l ∧
               consistent root L U
                 (λ x, D x ∨ ∃ r, r ∈ l ∧
                                  x = root ++ ["repositories"; name r]) st).
Proof.
  intros Hbody. induction l as [|r l IH]; intros D counters Hh HD HU; simpl.
  - apply returns_ret. intros st Hst. split; [done|].
    eapply consistent_dirs_weaken; [|done].
    intros x [Hx | (r & Hr & _)]; [done | by apply elem_of_nil in Hr].
  - simpl in Hh. apply andb_true_iff in Hh as [Hr Hl].
    eapply returns_bind.
    { apply (Hbody D counters r); eauto. intros rest. apply HU. left. }
    intros c. simpl. apply returns_assume. intros ->.
    eapply returns_conseq;
      [apply (IH (λ x, D x ∨ x = root ++ ["repositories"; name r])
                 (count_clone counters r) Hl) | done |].
    + by left.
    + intros r' rest Hr'. apply HU. by right.
    + intros c st [-> Hst]. split; [done|].
      eapply consistent_dirs_weaken; [|done]. simpl.
      intros x [Hx | (r' & Hr' & ->)]; [by left; left|].
      apply elem_of_cons in Hr' as [-> | Hr'].
      * left. by right.
      * right. eauto.
Qed.

Lemma foldl_count_clone (l : list repository) (counters : nat * nat) :
  foldl count_clone counters l =
  (counters.1 + length (cloned l), counters.2 + length (not_cloned l)).
Proof.
  revert counters. induction l as [|r l IH]; intros [s f]; simpl.
  - f_equal; lia.
  - rewrite IH. unfold count_clone, cloned, not_cloned.
    rewrite !filter_cons.
    destruct (is_ok (clone_from r)); repeat case_decide; try done;
      simpl; f_equal; lia.
Qed.

End Loops.

(** ** The phases of a run *)

Section Phases.
Context (L : string * string → Prop) (U : path → Prop).

Lemma returns_backup_user_metadata root D self :
  soft (get_keys (user self)) = true →
  D (root ++ ["metadata"]) → D (root ++ ["settings"]) →
  ¬ U (root ++ ["metadata"; "user_profile.json"]) →
  ¬ U (root ++ ["settings"; "ssh_keys.json"]) →
  returns (consistent root L U D) (backup_user_metadata self)
          (λ _, consistent root L U D).
Proof.
  intros Hkeys Hm Hs HUm HUs. unfold backup_user_metadata.
  step ltac:(apply returns_logger).
  step ltac:(apply returns_get_backup_root).
  apply returns_assume. intros ->.
  step ltac:(eapply (returns_write_json_keep root L U D _
                       (root ++ ["metadata"])
                       ["metadata"; "user_profile.json"]
                       "user_profile.json");
             eauto; rewrite <- ?app_assoc; simpl; by eauto).
  step ltac:(apply returns_logger).
  destruct (get_keys (user self)) as [keys|e].
  - apply returns_try. step ltac:(by apply returns_call).
    apply returns_assume. intros ->.
    step ltac:(apply returns_get_backup_root).
    apply returns_assume. intros ->.
    eapply (returns_write_json_keep root L U D _ (root ++ ["settings"])
              ["settings"; "ssh_keys.json"] "ssh_keys.json");
      eauto; rewrite <- ?app_assoc; simpl; by eauto.
  - destruct e; try done.
    eapply returns_try_raise; [done|]. apply returns_logger.
Qed.

Lemma returns_backup_gists root D self :
  soft (get_gists (user self)) = true →
  D (root ++ ["gists"]) →
  ¬ U (root ++ ["gists"; "gists.json"]) →
  returns (consistent root L U D) (backup_gists self)
          (λ _, consistent root L U D).
Proof.
  intros Hgists Hg HU. unfold backup_gists.
  destruct (get_gists (user self)) as [gists|e].
  - apply returns_try. step ltac:(by apply returns_call).
    apply returns_assume. intros ->.
    step ltac:(apply returns_get_backup_root).
    apply returns_assume. intros ->.
    eapply (returns_write_json_keep root L U D _ (root ++ ["gists"])
              ["gists"; "gists.json"] "gists.json");
      eauto; rewrite <- ?app_assoc; simpl; by eauto.
  - destruct e; try done.
    eapply returns_try_raise; [done|]. apply returns_logger.
Qed.

(** [mkdir] on a directory that exists changes nothing. *)
Lemma returns_mkdir_existing root D (q q0 : path) (c : string) :
  q = q0 ++ [c] → D q → q0 = [] ∨ D q0 →
  returns (consistent root L U D) (mkdir q) (λ _, consistent root L U D).
Proof.
  intros Hq0 Hq Hpar st Hst. exists tt, st. split; [|done].
  pose proof (cons_dirs _ _ _ _ _ Hst) as Hdirs.
  unfold mkdir. rewrite Hq0 at 1. rewrite parent_is_dir_snoc.
  2:{ destruct Hpar as [-> | Hd]; [by left | right; by apply Hdirs]. }
  rewrite (Hdirs q Hq). f_equal. destruct st as [f l r rl].
  unfold with_fs. simpl in *. f_equal. by apply insert_id, Hdirs.
Qed.

Lemma returns_mkdir_from_existing root D (anc : list string) :
  ∀ base : path,
    base = [] ∨ D base →
    (∀ k, 0 < k ≤ length anc → D (base ++ take k anc)) →
    returns (consistent root L U D) (mkdir_from base anc)
            (λ _, consistent root L U D).
Proof.
  induction anc as [|c anc IH]; intros base Hbase Hanc; simpl.
  - by apply returns_ret.
  - assert (Hc : D (base ++ [c])) by (apply (Hanc 1); simpl; lia).
    step ltac:(by apply (returns_mkdir_existing root D _ base c)).
    apply IH; [by right|]. intros k Hk. rewrite <- app_assoc. simpl.
    apply (Hanc (S k)). simpl. lia.
Qed.

Lemma mkdir_from_app (a b : list string) :
  ∀ (base : path) st,
    mkdir_from base (a ++ b) st =
    (mkdir_from base a ;; mkdir_from (base ++ a) b) st.
Proof.
  induction a as [|c a IH]; intros base st; simpl.
  - unfold mbind, M_bind, mret, M_ret. by rewrite app_nil_r.
  - unfold mbind, M_bind.
    destruct (mkdir (base ++ [c]) st) as [[[]|e] st1]; [|done].
    rewrite IH. unfold mbind, M_bind. by rewrite <- app_assoc.
Qed.

Lemma mkdir_parents_root (bd : path) (nm d : string) st :
  mkdir_parents ((bd ++ [nm]) ++ [d]) st =
  (mkdir_from [] bd ;; mkdir (bd ++ [nm]) ;; mkdir ((bd ++ [nm]) ++ [d]) ;;
   mret tt) st.
Proof.
  unfold mkdir_parents. rewrite <- app_assoc, mkdir_from_app. simpl.
  by rewrite <- app_assoc.
Qed.

Lemma above_weaken bd (D D' : path → Prop) :
  (∀ x, D x → D' x) → above bd D → above bd D'.
Proof. intros HD Hab q Hq Hpre. by apply HD, Hab. Qed.

Lemma returns_mkdir_parents bd nm D (d : string) :
  above bd D →
  layout [d] = Some true →
  ¬ U (bd ++ [nm]) → ¬ U ((bd ++ [nm]) ++ [d]) →
  returns (consistent (bd ++ [nm]) L U D)
    (mkdir_parents ((bd ++ [nm]) ++ [d]))
    (λ _, consistent (bd ++ [nm]) L U
            (λ x, (D x ∨ x = bd ++ [nm]) ∨ x = (bd ++ [nm]) ++ [d])).
Proof.
  intros Hab Hlay HUr HUd.
  eapply returns_ext; [apply mkdir_parents_root|].
  step ltac:(apply returns_mkdir_from_existing).
  { by left. }
  { intros k Hk. simpl. apply Hab.
    - intros Hnil. apply (f_equal length) in Hnil.
      rewrite length_take in Hnil. simpl in Hnil. lia.
    - apply prefix_take. }
  step ltac:(eapply (returns_mkdir (bd ++ [nm]) L U D _ bd [] nm);
             eauto; [by rewrite app_nil_r |]).
  { destruct (decide (bd = [])) as [-> | Hne]; [by left|].
    right. by apply Hab. }
  step ltac:(eapply (returns_mkdir (bd ++ [nm]) L U _ _ (bd ++ [nm]) [d] d);
             eauto).
  by apply returns_ret.
Qed.

Lemma returns_create_backup_structure self timestamp :
  ¬ U (root_of self timestamp) →
  (∀ d, d ∈ directories → ¬ U (root_of self timestamp ++ [d])) →
  returns
    (λ st, dir_exists (backup_dir self) st ∧
           fresh (root_of self timestamp) st ∧
           (∀ x, L x → x ∈ log st) ∧
           (∀ q, U q → fs st !! q = None))
    (create_backup_structure self timestamp)
    (λ _, consistent (root_of self timestamp) L U
            (structure (root_of self timestamp))).
Proof.
  intros HUr HUd. unfold create_backup_structure, root_of in *.
  set (bd := backup_dir self) in *.
  set (nm := "github_backup_" +:+ login (user self) +:+ "_" +:+ timestamp)
    in *.
  eapply returns_bind.
  { apply (returns_modify _ _
             (λ _, consistent (bd ++ [nm]) L U
                     (λ q, q ≠ [] ∧ q `prefix_of` bd))).
    intros st (Hdir & Hfresh & Hlog & Habs). split; simpl; try done.
    - intros p n. by rewrite Hfresh.
    - intros q [Hq Hpre]. by apply Hdir. }
  intros ?.
  assert (Hd : ∀ d, d ∈ directories → ¬ U ((bd ++ [nm]) ++ [d])) by done.
  eapply returns_bind.
  { unfold directories at 1. simpl.
    do 7 (eapply returns_bind;
          [ eapply (returns_mkdir_parents bd nm);
            [ intros q ? ?; cbn beta; tauto
            | reflexivity
            | exact HUr
            | apply Hd; unfold directories; set_solver ]
          | intros ?; simpl ]).
    apply returns_ret_keep. }
  intros ?. simpl.
  eapply returns_conseq; [apply returns_logger | done |].
  intros ? st Hst. eapply consistent_dirs_weaken; [|exact Hst].
  clear. intros x [Hx | (d & Hin & Hx)]; rewrite Hx; cbn beta; [tauto|].
  unfold directories in Hin.
  repeat (apply elem_of_cons in Hin as [-> | Hin]; [tauto|]).
  by apply elem_of_nil in Hin.
Qed.

Lemma structure_dir root d : d ∈ directories → structure root (root ++ [d]).
Proof. intros Hd. right. eauto. Qed.

Lemma returns_backup_repositories root self repos :
  get_repos (user self) = Ok repos →
  forallb healthy_repo repos = true →
  (∀ r rest, r ∈ repos → ¬ U (root ++ "repositories" :: name r :: rest)) →
  returns (consistent root L U (structure root)) (backup_repositories self)
    (λ _, consistent root
            (λ x, L x ∨ x = completed_line (length (cloned repos))
                                           (length (not_cloned repos)))
            U
            (λ x, structure root x ∨
                  ∃ r, r ∈ repos ∧ x = root ++ ["repositories"; name r])).
Proof.
  intros Hrepos Hh HU. unfold backup_repositories, get_all_repositories.
  step ltac:(by apply returns_call).
  apply returns_assume. intros ->.
  step ltac:(apply returns_logger).
  eapply returns_bind.
  { apply (returns_for_each root L U _ repos
             (backup_repositories_body_spec root L U self)
             (structure root) (0, 0) Hh); [|done].
    apply structure_dir. unfold directories. set_solver. }
  intros c. simpl. apply returns_assume. intros ->.
  rewrite foldl_count_clone. simpl.
  apply returns_logger_line.
Qed.

Lemma returns__backup_selected_repositories root self repos :
  get_repos (user (SelectiveBackupProgressScreen.tool self)) = Ok repos →
  forallb healthy_repo
    (SelectiveBackupProgressScreen.selected_repo_objects self repos) = true →
  (∀ r rest,
     r ∈ SelectiveBackupProgressScreen.selected_repo_objects self repos →
     ¬ U (root ++ "repositories" :: name r :: rest)) →
  returns (consistent root L U (structure root))
    (SelectiveBackupProgressScreen._backup_selected_repositories self)
    (λ _, consistent root L U
            (λ x, structure root x ∨
                  ∃ r, r ∈ SelectiveBackupProgressScreen.selected_repo_objects
                             self repos ∧
                       x = root ++ ["repositories"; name r])).
Proof.
  intros Hrepos Hh HU.
  unfold SelectiveBackupProgressScreen._backup_selected_repositories,
    get_all_repositories.
  step ltac:(by apply returns_call).
  apply returns_assume. intros ->.
  eapply returns_bind.
  { apply (returns_for_each root L U _ _
             (_backup_selected_repositories_body_spec root L U self)
             (structure root) (0, 0) Hh); [|done].
    apply structure_dir. unfold directories. set_solver. }
  intros c. simpl. apply returns_assume. intros ->.
  apply returns_log_write.
Qed.

End Phases.

(** ** The clone *)

(** What [clone_repository] does, in full: it returns whether the clone
    succeeded, logs, and on success leaves the clone. *)
Lemma clone_repository_run self repo (repo_dir : path) st :
  ∃ lines,
    clone_repository self repo repo_dir st =
      (Ok (is_ok (clone_from repo)),
       with_log (log st ++ lines)
         (if is_ok (clone_from repo)
          then with_fs (insert repo_dir Dir) st else st)) ∧
    match clone_from repo with
    | Ok _ => True
    | Raise (GitCommandError _ stderr as e) =>
        ("ERROR", "Git command failed for " +:+ full_name repo +:+ ": " +:+
                  str_exn e) ∈ lines ∧
        ("ERROR", "Command output: " +:+ stderr) ∈ lines
    | Raise e =>
        ("ERROR", "Unexpected error cloning " +:+ full_name repo +:+ ": " +:+
                  type_name e +:+ ": " +:+ str_exn e) ∈ lines
    end.
Proof.
  unfold clone_repository, Repo_clone_from, try_except, mbind, M_bind,
    logger_info, logger_error, logger, modify, call, mret, M_ret.
  destruct (clone_from repo) as [[]|e]; simpl.
  - eexists [_; _; _]. split; [|done].
    unfold with_log, with_fs. simpl. rewrite <- !app_assoc. reflexivity.
  - destruct e; simpl;
      first
        [ eexists [_; _; _];
          split; [unfold with_log; simpl; rewrite <- !app_assoc; reflexivity|];
          set_solver
        | eexists [_; _; _; _];
          split; [unfold with_log; simpl; rewrite <- !app_assoc; reflexivity|];
          set_solver ].
Qed.

(** C6: whatever the clone does, also when it raises, [clone_repository]
    returns a value: [True] when it succeeded, [False] when it raised, and
    then it has logged the failure as a failed git command or as an
    unexpected error. *)
Theorem clone_repository_returns self repo (repo_dir : path) st :
  ∃ b st',
    clone_repository self repo repo_dir st = (Ok b, st') ∧
    (b = true ↔ clone_from repo = Ok tt) ∧
    (∀ e, clone_from repo = Raise e →
          b = false ∧
          ∃ msg, ("ERROR", msg) ∈ log st' ∧
                 msg = match e with
                       | GitCommandError _ _ =>
                           "Git command failed for " +:+ full_name repo +:+
                           ": " +:+ str_exn e
                       | _ =>
                           "Unexpected error cloning " +:+ full_name repo +:+
                           ": " +:+ type_name e +:+ ": " +:+ str_exn e
                       end).
Proof.
  destruct (clone_repository_run self repo repo_dir st) as (lines & Hrun & Hl).
  eexists _, _. split; [exact Hrun|].
  destruct (clone_from repo) as [[]|e]; simpl.
  - split; [done|]. by intros e.
  - split; [done|]. intros e' [= <-]. split; [done|].
    eexists. split; [|done]. apply elem_of_app. right.
    destruct e; try done. by destruct Hl.
Qed.

(** ** The metadata of one repository *)

Lemma mkdir_run (q : path) st :
  parent_is_dir q st = true → can_mkdir st q = true →
  mkdir q st = (Ok tt, with_fs (insert q Dir) st).
Proof.
  unfold mkdir, can_mkdir. intros -> Hq.
  by destruct (fs st !! q) as [[]|].
Qed.

Lemma write_json_run (q : path) doc st :
  parent_is_dir q st = true → can_write st q = true →
  write_json q doc st = (Ok tt, with_fs (insert q (File doc)) st).
Proof.
  unfold write_json, can_write. intros -> Hq.
  by destruct (fs st !! q) as [[]|].
Qed.

(** Two paths differ: below a common prefix, or in length. *)
Ltac path_ne :=
  let H := fresh in
  intros H;
  first [ apply app_inv_head in H; discriminate H
        | apply (f_equal length) in H; rewrite ?length_app in H;
          simpl in H; lia ].

Ltac lookups :=
  simpl;
  repeat first [ rewrite lookup_insert_eq
               | rewrite lookup_insert_ne by path_ne ].

(** A line is in a log that ends with it, or with it and more lines. *)
Ltac in_log :=
  repeat first [ by (apply elem_of_app; right; apply list_elem_of_singleton)
               | apply elem_of_app; left ].

Lemma bind_run {A B : Type} (m : M A) (f : A → M B) st a st' :
  m st = (Ok a, st') → (m ≫= f) st = f a st'.
Proof. intros Hm. unfold mbind, M_bind. by rewrite Hm. Qed.

(** One sub-fetch under its [try]: the list is written, or the
    [GithubException] is logged. *)
Lemma soft_fetch_run (r : result (list pyval)) (q : path)
    (msg : exn → string) st :
  soft r = true → parent_is_dir q st = true → can_write st q = true →
  try_except
    (x ← call r; write_json q (PList x))
    (λ e, match e with
          | GithubException _ => Some (logger_warning (msg e))
          | _ => None
          end) st =
  (Ok tt,
   match r with
   | Ok l => with_fs (insert q (File (PList l))) st
   | Raise e => with_log (log st ++ [("WARNING", msg e)]) st
   end).
Proof.
  intros Hsoft Hpar Hw. unfold try_except, mbind, M_bind, call.
  destruct r as [l|e].
  - by rewrite write_json_run.
  - by destruct e.
Qed.

Lemma backup_repository_metadata_run self repo (repo_dir : path) st :
  repo_dir = [] ∨ fs st !! repo_dir = Some Dir →
  can_write st (repo_dir ++ ["metadata.json"]) = true →
  can_write st (repo_dir ++ ["issues.json"]) = true →
  can_write st (repo_dir ++ ["releases.json"]) = true →
  healthy_repo repo = true →
  ∃ st',
    backup_repository_metadata self repo repo_dir st = (Ok tt, st') ∧
    fs st' !! (repo_dir ++ ["issues.json"]) =
      fetched (get_issues repo) st (repo_dir ++ ["issues.json"]) ∧
    fs st' !! (repo_dir ++ ["releases.json"]) =
      fetched (get_releases repo) st (repo_dir ++ ["releases.json"]) ∧
    (∀ e, get_issues repo = Raise e →
          ("WARNING", "Could not backup issues for " +:+ full_name repo +:+
                      ": " +:+ str_exn e) ∈ log st') ∧
    (∀ e, get_releases repo = Raise e →
          ("WARNING", "Could not backup releases for " +:+ full_name repo +:+
                      ": " +:+ str_exn e) ∈ log st').
Proof.
  intros Hdir Hwm Hwi Hwr Hh. unfold healthy_repo in Hh.
  apply andb_true_iff in Hh as [Hh Hrel].
  apply andb_true_iff in Hh as [Htop Hiss].
  destruct (get_topics repo) as [topics|] eqn:Et; [|done].
  unfold backup_repository_metadata.
  unfold mbind at 1, M_bind at 1, call at 1. rewrite Et.
  unfold mbind at 1, M_bind at 1.
  rewrite write_json_run by (by try apply parent_is_dir_snoc).
  set (st1 := with_fs _ st).
  assert (Hdir1 : repo_dir = [] ∨ fs st1 !! repo_dir = Some Dir).
  { destruct Hdir as [-> | Hd]; [by left|]. right. subst st1. by lookups. }
  unfold mbind at 1, M_bind at 1.
  rewrite soft_fetch_run; [|done|by apply parent_is_dir_snoc|].
  2:{ unfold can_write in *. subst st1. by lookups. }
  set (st2 := match get_issues repo with Ok _ => _ | Raise _ => _ end).
  assert (Hfs2 : ∀ q, q ≠ repo_dir ++ ["issues.json"] →
                      fs st2 !! q = fs st1 !! q).
  { intros q Hq. subst st2. destruct (get_issues repo); simpl; [|done].
    by rewrite lookup_insert_ne. }
  rewrite soft_fetch_run; [|done| |].
  2:{ apply parent_is_dir_snoc. destruct Hdir1 as [-> | Hd]; [by left|].
      right. rewrite Hfs2; [done | path_ne]. }
  2:{ unfold can_write in *. rewrite Hfs2 by path_ne.
      subst st1. by lookups. }
  eexists. split; [done|]. split_and!.
  - destruct (get_releases repo); simpl.
    + rewrite lookup_insert_ne by path_ne. subst st2 st1.
      destruct (get_issues repo); simpl; by lookups.
    + subst st2 st1. destruct (get_issues repo); simpl; by lookups.
  - destruct (get_releases repo); simpl; [by lookups|].
    rewrite Hfs2 by path_ne. subst st1. by lookups.
  - intros e He. subst st2. rewrite He in *.
    destruct (get_releases repo); simpl; in_log.
  - intros e He. rewrite He. simpl. in_log.
Qed.

(** When the topics cannot be fetched, the exception leaves
    [backup_repository_metadata] before anything is written. *)
Lemma backup_repository_metadata_topics_raise self repo (repo_dir : path)
    st e :
  get_topics repo = Raise e →
  backup_repository_metadata self repo repo_dir st = (Raise e, st).
Proof.
  intros He. unfold backup_repository_metadata, mbind, M_bind, call.
  by rewrite He.
Qed.

(** C5 (as amended): in the loop body, once the descriptive fields of the
    repository are fetched, the issues and the releases are fetched each on
    its own: a [GithubException] in one is logged as a warning and leaves
    its file unwritten, the other file is written all the same, the body
    returns, and the clone counters depend on the clone alone. *)
Theorem metadata_subfetches_independent self counters repo (root : path) st :
  backup_root st = Some root →
  fs st !! (root ++ ["repositories"]) = Some Dir →
  can_mkdir st (root ++ ["repositories"; name repo]) = true →
  can_write st ((root ++ ["repositories"; name repo]) ++ ["metadata.json"])
    = true →
  can_write st ((root ++ ["repositories"; name repo]) ++ ["issues.json"])
    = true →
  can_write st ((root ++ ["repositories"; name repo]) ++ ["releases.json"])
    = true →
  healthy_repo repo = true →
  ∃ st',
    backup_repositories_body self counters repo st =
      (Ok (count_clone counters repo), st') ∧
    fs st' !! ((root ++ ["repositories"; name repo]) ++ ["issues.json"]) =
      fetched (get_issues repo) st
              ((root ++ ["repositories"; name repo]) ++ ["issues.json"]) ∧
    fs st' !! ((root ++ ["repositories"; name repo]) ++ ["releases.json"]) =
      fetched (get_releases repo) st
              ((root ++ ["repositories"; name repo]) ++ ["releases.json"]) ∧
    (∀ e, get_issues repo = Raise e →
          ("WARNING", "Could not backup issues for " +:+ full_name repo +:+
                      ": " +:+ str_exn e) ∈ log st') ∧
    (∀ e, get_releases repo = Raise e →
          ("WARNING", "Could not backup releases for " +:+ full_name repo +:+
                      ": " +:+ str_exn e) ∈ log st').
Proof.
  intros Hroot Hrepos Hmk Hwm Hwi Hwr Hh.
  set (repo_dir := root ++ ["repositories"; name repo]) in *.
  unfold backup_repositories_body.
  erewrite bind_run by reflexivity.
  erewrite bind_run
    by (unfold get_backup_root; simpl; rewrite Hroot; reflexivity).
  fold repo_dir. erewrite bind_run.
  2:{ apply mkdir_run; [|done]. subst repo_dir.
      change (root ++ ["repositories"; name repo])
        with (root ++ ["repositories"] ++ [name repo]).
      rewrite app_assoc. apply parent_is_dir_snoc. by right. }
  match goal with
  | |- context [(clone_repository self repo ?q ≫= _) ?s] =>
      destruct (clone_repository_run self repo q s) as (lines & Hclone & _)
  end.
  erewrite bind_run by exact Hclone. clear Hclone.
  set (st2 := with_log _ _).
  assert (Hfs2 : ∀ q, q ≠ repo_dir → q ≠ repo_dir ++ ["git"] →
                      fs st2 !! q = fs st !! q).
  { intros q Hq Hg. subst st2.
    destruct (is_ok (clone_from repo)); simpl;
      by rewrite ?lookup_insert_ne. }
  assert (Hdir2 : fs st2 !! repo_dir = Some Dir).
  { subst st2. destruct (is_ok (clone_from repo)); by lookups. }
  assert (Hmeta : ∀ l,
            ∃ st', backup_repository_metadata self repo repo_dir
                     (with_log (log st2 ++ l) st2) = (Ok tt, st') ∧
              fs st' !! (repo_dir ++ ["issues.json"]) =
                fetched (get_issues repo) st (repo_dir ++ ["issues.json"]) ∧
              fs st' !! (repo_dir ++ ["releases.json"]) =
                fetched (get_releases repo) st
                        (repo_dir ++ ["releases.json"]) ∧
              (∀ e, get_issues repo = Raise e →
                 ("WARNING", "Could not backup issues for " +:+
                   full_name repo +:+ ": " +:+ str_exn e) ∈ log st') ∧
              (∀ e, get_releases repo = Raise e →
                 ("WARNING", "Could not backup releases for " +:+
                   full_name repo +:+ ": " +:+ str_exn e) ∈ log st')).
  { intros l.
    destruct (backup_repository_metadata_run self repo repo_dir
                (with_log (log st2 ++ l) st2))
      as (st' & Hrun & Hi & Hr & Hwarn);
      [ by right
      | unfold can_write in *; simpl; by rewrite Hfs2 by path_ne
      | unfold can_write in *; simpl; by rewrite Hfs2 by path_ne
      | unfold can_write in *; simpl; by rewrite Hfs2 by path_ne
      | done
      | ].
    exists st'. split; [done|]. split_and!; try apply Hwarn.
    - rewrite Hi. destruct (get_issues repo); [done|].
      simpl. by rewrite Hfs2 by path_ne.
    - rewrite Hr. destruct (get_releases repo); [done|].
      simpl. by rewrite Hfs2 by path_ne. }
  unfold count_clone. destruct (is_ok (clone_from repo)).
  - erewrite bind_run by reflexivity. erewrite bind_run by reflexivity.
    destruct (Hmeta [("INFO", "Successfully cloned " +:+ full_name repo);
                     ("INFO", "Backing up metadata for " +:+ full_name repo)])
      as (st' & Hrun & Hfacts).
    exists st'. split; [|done]. erewrite bind_run; [done|].
    rewrite <- Hrun. f_equal. unfold with_log. simpl.
    by rewrite <- app_assoc.
  - erewrite bind_run by reflexivity. erewrite bind_run by reflexivity.
    destruct (Hmeta [("ERROR", "Failed to clone " +:+ full_name repo);
                     ("INFO", "Backing up metadata for " +:+ full_name repo)])
      as (st' & Hrun & Hfacts).
    exists st'. split; [|done]. erewrite bind_run; [done|].
    rewrite <- Hrun. f_equal. unfold with_log. simpl.
    by rewrite <- app_assoc.
Qed.

(** ** The full run *)

(** C1 (as amended): a full run on a fresh root below an existing backup
    directory, in which nothing fails but clones (and sub-fetches, with
    [GithubException]), returns and writes the manifest, also when every
    clone fails. The manifest holds [repositories_count], the
    sum of the counts of the account profile, and [status], always
    [completed]; the numbers of cloned and failed repositories, which add
    up to the repositories enumerated, are in the log. *)
Theorem run_backup_writes_manifest self timestamp backup_date repos st :
  dir_exists (backup_dir self) st →
  fresh (root_of self timestamp) st →
  get_repos (user self) = Ok repos →
  forallb healthy_repo repos = true →
  soft (get_keys (user self)) = true →
  soft (get_gists (user self)) = true →
  ∃ st',
    run_backup self timestamp backup_date st = (Ok tt, st') ∧
    fs st' !! (root_of self timestamp ++ ["backup_summary.json"]) =
      Some (File (summary self backup_date (root_of self timestamp))) ∧
    file_field st' (root_of self timestamp ++ ["backup_summary.json"])
               "repositories_count" =
      Some (PInt (public_repos (user self) +
                  default 0%Z (total_private_repos (user self)))) ∧
    file_field st' (root_of self timestamp ++ ["backup_summary.json"])
               "status" = Some (PStr "completed") ∧
    completed_line (length (cloned repos)) (length (not_cloned repos))
      ∈ log st' ∧
    length (cloned repos) + length (not_cloned repos) = length repos.
Proof.
  intros Hdir Hfresh Hrepos Hh Hkeys Hgists.
  set (root := root_of self timestamp) in *.
  set (line := completed_line (length (cloned repos))
                              (length (not_cloned repos))).
  assert (Hrun : returns
            (λ st, dir_exists (backup_dir self) st ∧ fresh root st ∧
                   (∀ x, False → x ∈ log st) ∧
                   (∀ q : path, False → fs st !! q = None))
            (run_backup self timestamp backup_date)
            (λ _ st',
               consistent root (λ x, False ∨ x = line) (λ _, False)
                 (λ x, structure root x ∨
                       ∃ r, r ∈ repos ∧
                            x = root ++ ["repositories"; name r]) st' ∧
               fs st' !! (root ++ ["backup_summary.json"]) =
                 Some (File (summary self backup_date root)))).
  { unfold run_backup. apply returns_try.
    step ltac:(apply (returns_create_backup_structure
                        (λ _, False) (λ _, False) self timestamp);
               intros; tauto).
    step ltac:(apply (returns_backup_user_metadata _ _ root _ self Hkeys);
               [ apply structure_dir; unfold directories; set_solver
               | apply structure_dir; unfold directories; set_solver
               | tauto | tauto ]).
    step ltac:(apply (returns_backup_repositories
                        (λ _, False) (λ _, False) root self repos Hrepos Hh);
               intros; tauto).
    step ltac:(apply (returns_backup_gists _ _ root _ self Hgists);
               [ left; apply structure_dir; unfold directories; set_solver
               | tauto ]).
    step ltac:(apply returns_get_backup_root).
    apply returns_assume. intros ->.
    eapply (returns_write_json root _ _ _ _ root ["backup_summary.json"]
              "backup_summary.json"); try done; [tauto|].
    right. left. by left. }
  destruct (Hrun st) as ([] & st' & Erun & Hcons & Hfile); [done|].
  exists st'. split_and!; try done.
  - unfold file_field. by rewrite Hfile.
  - unfold file_field. by rewrite Hfile.
  - apply (cons_log _ _ _ _ _ Hcons). by right.
  - unfold cloned, not_cloned. clear.
    induction repos as [|r l IH]; [done|]. rewrite !filter_cons.
    destruct (is_ok (clone_from r)); repeat case_decide; try done;
      simpl; lia.
Qed.

(** ** The selective run *)

(** Refute an equation between two paths. *)
Ltac path_contra H :=
  first [ apply app_inv_head in H; discriminate H
        | apply (f_equal length) in H; rewrite ?length_app in H;
          simpl in H; lia ].

Lemma selected_in_scope self repos r :
  r ∈ SelectiveBackupProgressScreen.selected_repo_objects self repos ↔
  r ∈ repos ∧ name r ∈ SelectiveBackupProgressScreen.selected_repos self.
Proof.
  unfold SelectiveBackupProgressScreen.selected_repo_objects.
  rewrite list_elem_of_filter. tauto.
Qed.

(** C7 (as amended): a selective run on a fresh root below an existing
    backup directory, in which nothing fails but clones (and sub-fetches,
    with [GithubException]), returns; it leaves the directory
    of a repository exactly for the names that are selected and that the
    account has, names it does not have being passed over; it writes no
    gists file and no manifest. *)
Theorem selective_backup_scope self timestamp repos st :
  dir_exists (backup_dir (SelectiveBackupProgressScreen.tool self)) st →
  fresh (root_of (SelectiveBackupProgressScreen.tool self) timestamp) st →
  get_repos (user (SelectiveBackupProgressScreen.tool self)) = Ok repos →
  forallb healthy_repo
    (SelectiveBackupProgressScreen.selected_repo_objects self repos) = true →
  soft (get_keys (user (SelectiveBackupProgressScreen.tool self))) = true →
  ∃ st',
    SelectiveBackupProgressScreen._run_selective_backup_sync self timestamp st
      = (Ok tt, st') ∧
    (∀ n, fs st' !! (root_of (SelectiveBackupProgressScreen.tool self)
                             timestamp ++ ["repositories"; n]) =
          if decide (in_scope self repos n) then Some Dir else None) ∧
    fs st' !! (root_of (SelectiveBackupProgressScreen.tool self) timestamp ++
               ["gists"; "gists.json"]) = None ∧
    fs st' !! (root_of (SelectiveBackupProgressScreen.tool self) timestamp ++
               ["backup_summary.json"]) = None.
Proof.
  intros Hdir Hfresh Hrepos Hh Hkeys.
  set (tool := SelectiveBackupProgressScreen.tool self) in *.
  set (root := root_of tool timestamp) in *.
  set (U := out_of_scope self repos root).
  assert (Hrun : returns
            (λ st, dir_exists (backup_dir tool) st ∧ fresh root st ∧
                   (∀ x, False → x ∈ log st) ∧
                   (∀ q, U q → fs st !! q = None))
            (SelectiveBackupProgressScreen._run_selective_backup_sync
               self timestamp)
            (λ _, consistent root (λ _, False) U
               (λ x, structure root x ∨
                     ∃ r, r ∈ SelectiveBackupProgressScreen.selected_repo_objects
                                self repos ∧
                          x = root ++ ["repositories"; name r]))).
  { unfold SelectiveBackupProgressScreen._run_selective_backup_sync.
    apply returns_try.
    eapply returns_bind.
    { apply (returns_modify _ _ (λ _ st, dir_exists (backup_dir tool) st ∧
               fresh root st ∧ (∀ x, False → x ∈ log st) ∧
               (∀ q, U q → fs st !! q = None))).
      intros st0 H0. exact H0. }
    intros ?. simpl.
    step ltac:(apply (returns_create_backup_structure
                        (λ _, False) U tool timestamp)).
    { intros [H | [H | (n & H & _)]]; unfold root in H; path_contra H. }
    { intros d Hd [H | [H | (n & H & _)]]; try (unfold root in H; path_contra H).
      unfold root in H. apply app_inv_head in H. injection H as ->.
      unfold directories in Hd.
      rewrite !elem_of_cons, elem_of_nil in Hd. intuition discriminate. }
    step ltac:(apply returns_log_write).
    step ltac:(apply (returns_backup_user_metadata _ _ root _ tool Hkeys);
               [ apply structure_dir; unfold directories; set_solver
               | apply structure_dir; unfold directories; set_solver
               | intros [H | [H | (n & H & _)]]; unfold root in H; path_contra H
               | intros [H | [H | (n & H & _)]]; unfold root in H; path_contra H ]).
    step ltac:(apply returns_log_write).
    step ltac:(apply (returns__backup_selected_repositories
                        (λ _, False) U root self repos Hrepos Hh)).
    { intros r rest Hr [H | [H | (n & H & Hn)]]; try (unfold root in H; path_contra H).
      unfold root in H. apply app_inv_head in H. injection H as <- ->.
      apply Hn.
      apply selected_in_scope in Hr as [Hr Hsel]. split; [done|].
      apply list_elem_of_fmap. eauto. }
    step ltac:(apply returns_log_write).
    apply returns_log_write. }
  destruct (Hrun st) as ([] & st' & Erun & Hcons).
  { split_and!; try done.
    intros q [-> | [-> | (n & -> & _)]]; apply Hfresh. }
  exists st'. split; [done|]. split_and!.
  - intros n. case_decide as Hn.
    + apply (cons_dirs _ _ _ _ _ Hcons). right.
      destruct Hn as [Hsel Hname].
      apply list_elem_of_fmap in Hname as (r & -> & Hr).
      exists r. split; [|done]. by apply selected_in_scope.
    + apply (cons_absent _ _ _ _ _ Hcons). right. right. eauto.
  - apply (cons_absent _ _ _ _ _ Hcons). right. by left.
  - apply (cons_absent _ _ _ _ _ Hcons). by left.
Qed.

(** ** The claims on example accounts *)

Section OnExamples.
Import Examples.

Lemma fresh_state_dir_exists : dir_exists ["backups"] fresh_state.
Proof.
  intros q Hq [k Hk]. destruct q as [|a [|b q]]; simplify_eq/=; done.
Qed.

Lemma fresh_state_fresh : fresh root fresh_state.
Proof. intros p. by apply lookup_singleton_ne. Qed.

(** C1, as the specification states it, fails: of the two repositories
    enumerated one fails to clone, and the manifest has [status]
    [completed], no outcomes, and the seven repositories of the account
    profile as [repositories_count]. *)
Lemma run_backup_one_failure_manifest :
  let run := run_backup one_failure "20240101_120000" "2024-01-01T12:00:05"
                        fresh_state in
  get_repos (user one_failure)
    = Ok [good_repo "alpha"; unclonable_repo "beta"] ∧
  run.1 = Ok tt ∧
  fs run.2 !! (root ++ ["backup_summary.json"]) =
    Some (File (PDict
      [("backup_date", PStr "2024-01-01T12:00:05");
       ("user", PStr "octocat");
       ("backup_location",
        PStr "backups/github_backup_octocat_20240101_120000");
       ("repositories_count", PInt 7);
       ("status", PStr "completed")])) ∧
  file_field run.2 (root ++ ["backup_summary.json"]) "status"
    ≠ Some (PStr "completed_with_errors") ∧
  file_field run.2 (root ++ ["backup_summary.json"]) "repositories_count"
    ≠ Some (PInt 2).
Proof. vm_compute. by split_and!. Qed.

Lemma run_backup_writes_manifest_witness :
  ∃ st',
    run_backup all_fail "20240101_120000" "2024-01-01T12:00:05" fresh_state
      = (Ok tt, st') ∧
    file_field st' (root ++ ["backup_summary.json"]) "status"
      = Some (PStr "completed") ∧
    completed_line 0 2 ∈ log st'.
Proof.
  destruct (run_backup_writes_manifest all_fail "20240101_120000"
              "2024-01-01T12:00:05"
              [unclonable_repo "alpha"; unclonable_repo "beta"] fresh_state)
    as (st' & Hrun & _ & _ & Hstatus & Hline & _).
  - exact fresh_state_dir_exists.
  - exact fresh_state_fresh.
  - reflexivity.
  - reflexivity.
  - reflexivity.
  - reflexivity.
  - exists st'. split_and!; [exact Hrun | exact Hstatus | exact Hline].
Defined.

(** C5, as the specification states it, fails. When the topics of a
    repository cannot be fetched, its issues are not fetched, the next
    repository is not reached and the run raises without a manifest. When
    the issues cannot be fetched, the manifest says nothing of it. When
    the issues fetch raises another exception, the run raises. *)
Lemma descriptive_failure_aborts_run :
  let run := run_backup topics_fail "20240101_120000" "2024-01-01T12:00:05"
                        fresh_state in
  let partial := run_backup issues_fail_account "20240101_120000"
                            "2024-01-01T12:00:05" fresh_state in
  let other := run_backup issues_disconnect "20240101_120000"
                          "2024-01-01T12:00:05" fresh_state in
  (run.1 = Raise (GithubException "502 Bad Gateway") ∧
   fs run.2 !! (root ++ ["repositories"; "alpha"; "git"]) = Some Dir ∧
   fs run.2 !! (root ++ ["repositories"; "alpha"; "issues.json"]) = None ∧
   fs run.2 !! (root ++ ["repositories"; "beta"]) = None ∧
   fs run.2 !! (root ++ ["backup_summary.json"]) = None) ∧
  (partial.1 = Ok tt ∧
   fs partial.2 !! (root ++ ["repositories"; "alpha"; "issues.json"]) = None ∧
   fs partial.2 !! (root ++ ["backup_summary.json"]) =
     Some (File (PDict
       [("backup_date", PStr "2024-01-01T12:00:05");
        ("user", PStr "octocat");
        ("backup_location",
         PStr "backups/github_backup_octocat_20240101_120000");
        ("repositories_count", PInt 1);
        ("status", PStr "completed")]))) ∧
  (other.1 = Raise (OtherException "ConnectionError" "Connection aborted") ∧
   fs other.2 !! (root ++ ["repositories"; "alpha"; "releases.json"]) = None ∧
   fs other.2 !! (root ++ ["backup_summary.json"]) = None).
Proof. vm_compute. by split_and!. Qed.

Lemma metadata_subfetches_independent_witness :
  ∃ st',
    backup_repositories_body issues_fail_account (0, 0) issues_fail
                             structured_state = (Ok (1, 0), st') ∧
    fs st' !! (root ++ ["repositories"; "alpha"; "issues.json"]) = None ∧
    fs st' !! (root ++ ["repositories"; "alpha"; "releases.json"]) =
      Some (File (PList [PDict [("tag_name", PStr "v1")]])) ∧
    ("WARNING", "Could not backup issues for octocat/alpha: 410 Gone")
      ∈ log st'.
Proof.
  destruct (metadata_subfetches_independent issues_fail_account (0, 0)
              issues_fail root structured_state)
    as (st' & Hrun & Hi & Hr & Hwarn & _);
    [reflexivity | reflexivity | reflexivity | reflexivity | reflexivity
    | reflexivity | reflexivity |].
  exists st'. split_and!.
  - exact Hrun.
  - exact Hi.
  - exact Hr.
  - exact (Hwarn _ eq_refl).
Defined.

Lemma clone_repository_returns_witness :
  ∃ st',
    clone_repository one_failure (unclonable_repo "beta")
      (root ++ ["repositories"; "beta"; "git"]) structured_state
      = (Ok false, st') ∧
    ("ERROR", "Git command failed for octocat/beta: Cmd('git') failed")
      ∈ log st'.
Proof.
  destruct (clone_repository_returns one_failure (unclonable_repo "beta")
              (root ++ ["repositories"; "beta"; "git"]) structured_state)
    as (b & st' & Hrun & _ & Hfail).
  destruct (Hfail _ eq_refl) as (-> & msg & Hlog & ->).
  exists st'. split; [exact Hrun | exact Hlog].
Defined.

(** C7, as the specification states it, fails: the selective run of two
    of five repositories returns, and there is no manifest. *)
Lemma selective_run_writes_no_manifest :
  let run := SelectiveBackupProgressScreen._run_selective_backup_sync
               selective "20240101_120000" fresh_state in
  run.1 = Ok tt ∧
  fs run.2 !! (root ++ ["repositories"; "b"]) = Some Dir ∧
  fs run.2 !! (root ++ ["repositories"; "d"]) = Some Dir ∧
  fs run.2 !! (root ++ ["backup_summary.json"]) = None ∧
  ¬ ∃ manifest, fs run.2 !! (root ++ ["backup_summary.json"])
                  = Some (File manifest).
Proof.
  vm_compute. split_and!; try done. by intros [manifest Hm].
Qed.

Lemma selective_backup_scope_witness :
  ∃ st',
    SelectiveBackupProgressScreen._run_selective_backup_sync
      selective_unknown "20240101_120000" fresh_state = (Ok tt, st') ∧
    fs st' !! (root ++ ["repositories"; "c"]) = Some Dir ∧
    fs st' !! (root ++ ["repositories"; "zzz"]) = None ∧
    fs st' !! (root ++ ["repositories"; "a"]) = None ∧
    fs st' !! (root ++ ["backup_summary.json"]) = None.
Proof.
  destruct (selective_backup_scope selective_unknown "20240101_120000"
              [good_repo "a"; good_repo "b"; unclonable_repo "c";
               good_repo "d"; good_repo "e"] fresh_state)
    as (st' & Hrun & Hdirs & _ & Hmanifest).
  - exact fresh_state_dir_exists.
  - exact fresh_state_fresh.
  - reflexivity.
  - reflexivity.
  - reflexivity.
  - exists st'. split_and!; [exact Hrun | | | | exact Hmanifest].
    + exact (Hdirs "c").
    + exact (Hdirs "zzz").
    + exact (Hdirs "a").
Defined.

End OnExamples.

End BackupFacts.
